(** * fcgi-stream: chopping a byte stream on FastCGI record boundaries

    A shallow embedding of [index.js] (the [FastCGIStream] duplex stream) and
    the properties of its record extraction, draining, flow control, source
    binding, error and destruction paths.

    Modelling conventions.
    - A Node [Buffer] is a [list byte]; [b.length] is [length b].  Lengths,
      offsets and header fields are natural numbers: the JavaScript numbers
      involved are small non-negative integers.
    - The chunks written are Buffers ([data] is a Buffer or absent); the
      [encoding] arguments, which the code never reads, are left out.  A
      chunk is not modified by its producer once it is written
      ([slice] shares its memory with the pending chunks); the records
      emitted are new Buffers.
    - Methods mutate [this] and emit events; they are computations in the
      monad [M]: the instance is threaded through, the signals emitted are
      logged in order, and a JavaScript exception ends the computation.
    - Event listeners and the upstream producer are passive: a listener that
      receives a signal does not call back into the stream during the
      emission, and a listener for ['error'] is attached (so that
      [emit('error', er)] returns instead of throwing [er]).  A call to a
      method of the producer is logged as a signal.
    - [new Buffer(n)] yields [n] bytes of unspecified content; the content is
      the parameter [uninit].
    - [build_record] calls itself once for each record that it builds, so
      that the depth of the call stack matters.  [build_record], [write],
      [end_] and [run] are the methods on a stack that holds every call;
      [build_record_on], [write_on], [end_on] and [run_on] are the methods
      on a stack that holds a given number of nested calls of
      [build_record], and throw a [RangeError] beyond it.  The two agree for
      as long as the stack holds ([run_on_held]).
    - [normalize_data], which no method calls, reads the fields [feed] and
      [expect] that nothing sets: the two fields are kept apart from the
      instance, and [util.inspect] and [Buffer.toString] are parameters.
      The [log] option is not modelled. *)

From Stdlib Require Import List Arith Lia Bool.
From Stdlib Require String.
Import (notations) String.
From Stdlib Require Import Strings.Byte.
From ExtLib Require Import Structures.Monad.
From Equations Require Import Equations.
Import ListNotations.
Import MonadNotation.
Local Open Scope monad_scope.
Local Open Scope list_scope.

(** ** Buffers *)

Definition Buffer := list byte.

(** [Buffer.concat(list)]: a new Buffer with the bytes of the Buffers of
    [list], in order. *)
Definition Buffer_concat (list : list Buffer) : Buffer := List.concat list.

(** [buf.slice(start)]: the bytes from [start] to the end. *)
Definition slice (buf : Buffer) (start : nat) : Buffer := skipn start buf.

(** [source.copy(target, targetStart, sourceStart, sourceEnd)]: the content
    of [target] afterwards.  Only as many bytes are copied as fit in
    [target]. *)
Definition copy (source target : Buffer)
    (targetStart sourceStart sourceEnd : nat) : Buffer :=
  let bytes := firstn (sourceEnd - sourceStart) (skipn sourceStart source) in
  let n := Nat.min (length bytes) (length target - targetStart) in
  firstn targetStart target ++ firstn n bytes ++ skipn (targetStart + n) target.

(** [buf.readUInt8(offset)]; [None] when the read is out of bounds (Node
    raises there). *)
Definition readUInt8 (buf : Buffer) (offset : nat) : option nat :=
  match nth_error buf offset with
  | Some b => Some (Byte.to_nat b)
  | None => None
  end.

(** [buf.readUInt16BE(offset)]. *)
Definition readUInt16BE (buf : Buffer) (offset : nat) : option nat :=
  match nth_error buf offset, nth_error buf (offset + 1) with
  | Some hi, Some lo => Some (Byte.to_nat hi * 256 + Byte.to_nat lo)
  | _, _ => None
  end.

(** ** Header *)

Record Header := {
  version : nat;
  type : nat;
  req_id : nat;
  body_len : nat;
  pad_len : nat;
  reserved : nat
}.

(** [get_header(chunk)]: [None] when one of the reads is out of bounds. *)
Definition get_header (chunk : Buffer) : option Header :=
  match readUInt8 chunk 0, readUInt8 chunk 1, readUInt16BE chunk 2,
        readUInt16BE chunk 4, readUInt8 chunk 6, readUInt8 chunk 7 with
  | Some v, Some t, Some r, Some b, Some p, Some z =>
      Some {| version := v; type := t; req_id := r;
              body_len := b; pad_len := p; reserved := z |}
  | _, _, _, _, _, _ => None
  end.

(** ** JavaScript exceptions and the signals of the stream *)

(** What the upstream producer exposes. *)
Record Producer := {
  producer_id : nat;
  has_pause : bool;
  has_resume : bool;
  has_destroy : bool
}.

Inductive exn :=
| Error (message : String.string)            (* [new Error(message)] *)
| Error_source (message : String.string) (src : option Producer)
    (* an [Error] whose [source] property has been assigned *)
| TypeError        (* a property of [undefined] is read *)
| OutOfBounds      (* a Buffer read beyond its length *)
| ReferenceError (name : String.string)
| RangeError.      (* the call stack is exhausted *)

Inductive signal :=
| on_data (record : Buffer)    (* emit('data', record) *)
| on_end                       (* emit('end') *)
| on_error (er : exn)          (* emit('error', er) *)
| source_pause (src : Producer)
| source_resume (src : Producer)
| source_destroy (src : Producer).

(** ** The instance *)

(** The ['pipe'] listener that is installed: the one registered with [once]
    by the constructor, or the one it registers with [on] when it fires. *)
Inductive pipe_listener := first_pipe | later_pipe.

Record FastCGIStream := {
  readable : bool;
  writable : bool;
  is_ending : bool;
  is_sending : bool;
  is_dead : bool;                 (* [undefined] until [destroy] sets it *)
  pending_data : list Buffer;
  records : list Buffer;
  source : option Producer;       (* [null] until a producer is piped in *)
  pipe_handler : pipe_listener
}.

Definition set_readable v this :=
  {| readable := v; writable := writable this; is_ending := is_ending this;
     is_sending := is_sending this; is_dead := is_dead this;
     pending_data := pending_data this; records := records this;
     source := source this; pipe_handler := pipe_handler this |}.
Definition set_writable v this :=
  {| readable := readable this; writable := v; is_ending := is_ending this;
     is_sending := is_sending this; is_dead := is_dead this;
     pending_data := pending_data this; records := records this;
     source := source this; pipe_handler := pipe_handler this |}.
Definition set_is_ending v this :=
  {| readable := readable this; writable := writable this; is_ending := v;
     is_sending := is_sending this; is_dead := is_dead this;
     pending_data := pending_data this; records := records this;
     source := source this; pipe_handler := pipe_handler this |}.
Definition set_is_sending v this :=
  {| readable := readable this; writable := writable this;
     is_ending := is_ending this; is_sending := v; is_dead := is_dead this;
     pending_data := pending_data this; records := records this;
     source := source this; pipe_handler := pipe_handler this |}.
Definition set_is_dead v this :=
  {| readable := readable this; writable := writable this;
     is_ending := is_ending this; is_sending := is_sending this; is_dead := v;
     pending_data := pending_data this; records := records this;
     source := source this; pipe_handler := pipe_handler this |}.
Definition set_pending_data v this :=
  {| readable := readable this; writable := writable this;
     is_ending := is_ending this; is_sending := is_sending this;
     is_dead := is_dead this; pending_data := v; records := records this;
     source := source this; pipe_handler := pipe_handler this |}.
Definition set_records v this :=
  {| readable := readable this; writable := writable this;
     is_ending := is_ending this; is_sending := is_sending this;
     is_dead := is_dead this; pending_data := pending_data this; records := v;
     source := source this; pipe_handler := pipe_handler this |}.
Definition set_source v this :=
  {| readable := readable this; writable := writable this;
     is_ending := is_ending this; is_sending := is_sending this;
     is_dead := is_dead this; pending_data := pending_data this;
     records := records this; source := v; pipe_handler := pipe_handler this |}.
Definition set_pipe_handler v this :=
  {| readable := readable this; writable := writable this;
     is_ending := is_ending this; is_sending := is_sending this;
     is_dead := is_dead this; pending_data := pending_data this;
     records := records this; source := source this; pipe_handler := v |}.

(** [new FastCGIStream(opts)]. *)
Definition FastCGIStream_new : FastCGIStream :=
  {| readable := true; writable := true; is_ending := false;
     is_sending := true; is_dead := false; pending_data := [];
     records := []; source := None; pipe_handler := first_pipe |}.

(** ** The monad of method bodies *)

Inductive completion (A : Type) :=
| Normal (a : A)
| Throw (e : exn).
Arguments Normal {A} a.
Arguments Throw {A} e.

Definition M (A : Type) : Type :=
  FastCGIStream -> completion A * FastCGIStream * list signal.

Definition M_ret {A} (a : A) : M A := fun this => (Normal a, this, []).

Definition M_bind {A B} (m : M A) (k : A -> M B) : M B :=
  fun this =>
    match m this with
    | (Normal a, this1, out1) =>
        let '(r, this2, out2) := k a this1 in (r, this2, out1 ++ out2)
    | (Throw e, this1, out1) => (Throw e, this1, out1)
    end.

#[global] Instance Monad_M : Monad M := {| ret := @M_ret; bind := @M_bind |}.

Definition self : M FastCGIStream := fun this => (Normal this, this, []).
Definition assign (f : FastCGIStream -> FastCGIStream) : M unit :=
  fun this => (Normal tt, f this, []).
Definition emit (s : signal) : M unit := fun this => (Normal tt, this, [s]).
Definition throw {A} (e : exn) : M A := fun this => (Throw e, this, []).

(** ** Record extraction *)

(** [pending_data.reduce(function (len, buf) { return len + buf.length }, 0)] *)
Definition pending_bytes (pending_data : list Buffer) : nat :=
  fold_left (fun len buf => len + length buf) pending_data 0.

(** The first loop of [build_record]: while there are at least two chunks and
    the first has fewer than 8 bytes, the first two are replaced by their
    concatenation.  The number of chunks is the measure. *)
Equations merge_front (pending_data : list Buffer) : list Buffer
  by wf (length pending_data) lt :=
merge_front (first_chunk :: second_chunk :: rest)
  with lt_dec (length first_chunk) 8 := {
  | left _ :=
      merge_front (Buffer_concat [first_chunk; second_chunk] :: rest);
  | right _ := first_chunk :: second_chunk :: rest };
merge_front pending_data := pending_data.

(** How the second loop of [build_record] ends: with the record filled and
    the chunks that remain, or with a [TypeError] when [shift()] finds no
    chunk ([next_chunk] is [undefined] and [next_chunk.length] raises). *)
Inductive copied :=
| Filled (record : Buffer) (pending_data : list Buffer)
| NoChunk (record : Buffer).

(** The second loop of [build_record], from the values of [record], [offset]
    and [pending_data] at its entry.  An iteration either removes a chunk or
    brings [offset] to [record_bytes]. *)
Equations? fill_record (record_bytes : nat) (record : Buffer) (offset : nat)
    (pending_data : list Buffer) : copied
  by wf ((record_bytes - offset) + length pending_data) lt :=
fill_record record_bytes record offset pending_data
  with lt_dec offset record_bytes := {
  | right _ := Filled record pending_data;
  | left _ with pending_data := {
    | [] := NoChunk record;
    | next_chunk :: rest
        with le_dec (length next_chunk) (record_bytes - offset) := {
      | left _ :=
          fill_record record_bytes
            (copy next_chunk record offset 0 (length next_chunk))
            (offset + length next_chunk) rest;
      | right _ :=
          fill_record record_bytes
            (copy next_chunk record offset 0 (record_bytes - offset))
            (offset + (record_bytes - offset))
            (slice next_chunk (record_bytes - offset) :: rest) } } }.
Proof. all: simpl; lia. Qed.

(** ** Facts about the loops and the header

    The termination of [build_record] rests on them. *)

Lemma fold_left_add_length (pd : list Buffer) (n : nat) :
  fold_left (fun len buf => len + length buf) pd n = n + length (concat pd).
Proof.
  revert n. induction pd as [|c pd IH]; intros n; simpl.
  - lia.
  - rewrite IH, length_app. lia.
Qed.

Lemma pending_bytes_concat (pd : list Buffer) :
  pending_bytes pd = length (concat pd).
Proof. unfold pending_bytes. now rewrite fold_left_add_length. Qed.

(** Merging moves chunk boundaries only: the bytes and their order stay. *)
Lemma merge_front_concat (pd : list Buffer) :
  concat (merge_front pd) = concat pd.
Proof.
  funelim (merge_front pd); try reflexivity.
  rewrite H. unfold Buffer_concat. simpl.
  now rewrite app_nil_r, app_assoc.
Qed.

(** After the merge, a buffer that holds 8 bytes holds them in its first
    chunk. *)
Lemma merge_front_head (pd : list Buffer) :
  8 <= length (concat pd) ->
  exists chunk rest, merge_front pd = chunk :: rest /\ 8 <= length chunk.
Proof.
  funelim (merge_front pd); intros Hlen.
  - simpl in Hlen. lia.
  - simpl in Hlen. rewrite app_nil_r in Hlen. eauto.
  - apply H. unfold Buffer_concat. simpl in *.
    now rewrite app_nil_r, <- app_assoc.
  - exists first_chunk, (second_chunk :: rest). split; [reflexivity | lia].
Qed.

Lemma copy_prefix (src target : Buffer) (off k : nat) :
  k <= length src -> off + k <= length target ->
  copy src target off 0 k
  = firstn off target ++ firstn k src ++ skipn (off + k) target.
Proof.
  intros Hk Hoff. unfold copy. simpl.
  rewrite Nat.sub_0_r, length_firstn.
  replace (Nat.min (Nat.min k (length src)) (length target - off))
    with k by lia.
  now rewrite firstn_firstn, Nat.min_id.
Qed.

Lemma copy_length (src target : Buffer) (off k : nat) :
  k <= length src -> off + k <= length target ->
  length (copy src target off 0 k) = length target.
Proof.
  intros Hk Hoff. rewrite copy_prefix by assumption.
  rewrite !length_app, !length_firstn, length_skipn. lia.
Qed.

Lemma firstn_copy (src target : Buffer) (off k : nat) :
  k <= length src -> off + k <= length target ->
  firstn (off + k) (copy src target off 0 k)
  = firstn off target ++ firstn k src.
Proof.
  intros Hk Hoff. rewrite copy_prefix by assumption.
  rewrite app_assoc, firstn_app.
  rewrite length_app, !length_firstn.
  replace (off + k - (Nat.min off (length target) + Nat.min k (length src)))
    with 0 by lia.
  rewrite firstn_O, app_nil_r.
  apply firstn_all2. rewrite length_app, !length_firstn. lia.
Qed.

(** The copy loop, when the chunks hold the bytes the record still needs:
    it ends with the record filled, its first [offset] bytes kept and the
    rest taken from the front of the pending bytes, which it removes. *)
Lemma fill_record_spec (n : nat) (record : Buffer) (offset : nat)
    (pd : list Buffer) :
  length record = n -> offset <= n -> n - offset <= length (concat pd) ->
  exists pd',
    fill_record n record offset pd
    = Filled (firstn offset record ++ firstn (n - offset) (concat pd)) pd'
    /\ concat pd' = skipn (n - offset) (concat pd).
Proof.
  funelim (fill_record n record offset pd); intros Hrec Hoff Hbytes.
  - replace (record_bytes - offset) with 0 by lia.
    simpl. rewrite app_nil_r, firstn_all2 by lia.
    eexists. split; reflexivity.
  - simpl in Hbytes. lia.
  - simpl in Hbytes. rewrite length_app in Hbytes.
    destruct H as [pd' [E C]].
    + rewrite copy_length; lia.
    + lia.
    + lia.
    + exists pd'. split.
      * rewrite E. f_equal. rewrite firstn_copy by lia.
        rewrite <- app_assoc. f_equal. simpl.
        rewrite firstn_app, (firstn_all2 next_chunk) by lia.
        rewrite (firstn_all2 next_chunk) by lia.
        do 2 f_equal. lia.
      * rewrite C. simpl. rewrite skipn_app.
        rewrite (skipn_all2 next_chunk) by lia. simpl.
        f_equal. lia.
  - simpl in Hbytes. rewrite length_app in Hbytes.
    destruct H as [pd' [E C]].
    + rewrite copy_length; lia.
    + lia.
    + lia.
    + exists pd'. split.
      * rewrite E. f_equal. rewrite firstn_copy by lia.
        replace (record_bytes - (offset + (record_bytes - offset)))
          with 0 by lia.
        rewrite firstn_O, app_nil_r. f_equal. simpl.
        rewrite firstn_app.
        replace (record_bytes - offset - length next_chunk) with 0 by lia.
        now rewrite firstn_O, app_nil_r.
      * rewrite C.
        replace (record_bytes - (offset + (record_bytes - offset)))
          with 0 by lia.
        simpl. unfold slice. rewrite skipn_app.
        replace (record_bytes - offset - length next_chunk) with 0 by lia.
        reflexivity.
Qed.

(** The header is read from the first 8 bytes only. *)
Lemma get_header_app (a b : Buffer) :
  8 <= length a -> get_header (a ++ b) = get_header a.
Proof.
  intros H. unfold get_header, readUInt8, readUInt16BE.
  rewrite !nth_error_app1 by lia. reflexivity.
Qed.

Lemma get_header_Some (chunk : Buffer) :
  8 <= length chunk -> exists header, get_header chunk = Some header.
Proof.
  intros H.
  do 8 (destruct chunk as [|? chunk]; [simpl in H; lia|]).
  eexists. reflexivity.
Qed.

Lemma get_header_None (chunk : Buffer) :
  length chunk < 8 -> get_header chunk = None.
Proof.
  intros H. unfold get_header, readUInt8, readUInt16BE.
  assert (E : nth_error chunk 7 = None) by (apply nth_error_None; lia).
  rewrite E.
  repeat match goal with
         | |- context [match ?x with _ => _ end] => destruct x
         end; reflexivity.
Qed.

(** The fields of a decoded header are in the range of their width. *)
Lemma get_header_bounds (chunk : Buffer) (header : Header) :
  get_header chunk = Some header ->
  8 <= length chunk /\ version header < 256 /\ type header < 256
  /\ req_id header < 256 * 256 /\ body_len header < 256 * 256
  /\ pad_len header < 256 /\ reserved header < 256.
Proof.
  intros H.
  destruct (le_lt_dec 8 (length chunk)) as [L|L].
  2:{ rewrite get_header_None in H by assumption. discriminate. }
  split; [assumption|].
  do 8 (destruct chunk as [|? chunk]; [simpl in L; lia|]).
  unfold get_header, readUInt8, readUInt16BE in H.
  cbn [nth_error Nat.add] in H.
  injection H as <-. cbn [version type req_id body_len pad_len reserved].
  pose proof Byte.to_nat_bounded as B.
  repeat split;
    repeat match goal with
           | |- context [Byte.to_nat ?x] =>
               pose proof (B x); generalize dependent (Byte.to_nat x)
           end; intros; lia.
Qed.

(** ** Records on the byte stream *)

(** The bytes are one record: a header, and as many bytes after it as the
    header announces. *)
Definition is_record (bytes : Buffer) : bool :=
  match get_header bytes with
  | Some header => length bytes =? 8 + body_len header + pad_len header
  | None => false
  end.

(** The bytes begin with a whole record. *)
Definition holds_record (bytes : Buffer) : bool :=
  match get_header bytes with
  | Some header => 8 + body_len header + pad_len header <=? length bytes
  | None => false
  end.

(** ** Draining *)

(** The loop of [emit_records], over the queue as it is at the loop's entry:
    as long as [is_sending] holds, the front record is shifted off
    [this.records] and emitted. *)
Fixpoint emit_queue (queue : list Buffer) : M unit :=
  match queue with
  | [] => ret tt
  | record :: rest =>
      this <- self ;;
      if is_sending this then
        assign (set_records rest) ;;
        emit (on_data record) ;;
        emit_queue rest
      else ret tt
  end.

Definition emit_records : M unit :=
  this <- self ;;
  emit_queue (records this) ;;
  this <- self ;;
  if is_sending this && is_ending this && (length (records this) =? 0) then
    assign (set_is_ending false) ;;
    assign (set_readable false) ;;
    emit on_end
  else ret tt.

(** To match on a value and keep the equation. *)
Definition keep {A : Type} (a : A) : {b : A | a = b} := exist _ a eq_refl.

Section Framer.

(** The content of freshly allocated memory. *)
Variable uninit : nat -> byte.

(** [new Buffer(size)] *)
Definition Buffer_new (size : nat) : Buffer := map uninit (seq 0 size).

(** One pass through the body of [build_record], up to its last statement:
    what the pass does to [pending_data], and how it leaves. *)
Inductive pass :=
| NoRecord (pending_data : list Buffer)
    (* [return this.emit_records()], at either place *)
| Built (record : Buffer) (pending_data : list Buffer)
    (* [this.records.push(record)] is reached *)
| Raised (e : exn) (pending_data : list Buffer).

Definition build_pass (pending_data0 : list Buffer) : pass :=
  let pending_data := merge_front pending_data0 in
  let pending_bytes := pending_bytes pending_data in
  if pending_bytes <? 8 then NoRecord pending_data
  else
    match pending_data with
    | [] => Raised TypeError pending_data     (* [pending_data[0]] undefined *)
    | chunk0 :: _ =>
        match get_header chunk0 with
        | None => Raised OutOfBounds pending_data
        | Some header =>
            let record_bytes := 8 + body_len header + pad_len header in
            if pending_bytes <? record_bytes then NoRecord pending_data
            else
              match fill_record record_bytes (Buffer_new record_bytes) 0
                      pending_data with
              | Filled record rest => Built record rest
              | NoChunk _ => Raised TypeError []
              end
        end
    end.

Lemma Buffer_new_length (size : nat) : length (Buffer_new size) = size.
Proof. unfold Buffer_new. now rewrite length_map, length_seq. Qed.

(** A pass over a buffer that does not begin with a whole record only merges
    chunks. *)
Lemma build_pass_NoRecord (pd : list Buffer) :
  holds_record (concat pd) = false -> build_pass pd = NoRecord (merge_front pd).
Proof.
  unfold holds_record, build_pass. intros H.
  rewrite pending_bytes_concat, merge_front_concat.
  destruct (Nat.ltb_spec (length (concat pd)) 8) as [L|L]; [reflexivity|].
  destruct (merge_front_head pd L) as [chunk [rest [E Hc]]].
  pose proof (merge_front_concat pd) as C. rewrite E in *. simpl in C.
  rewrite <- C, get_header_app in H by assumption.
  destruct (get_header chunk) as [header|] eqn:G.
  - apply Nat.leb_gt in H. rewrite length_app in H.
    rewrite <- C, length_app.
    destruct (Nat.ltb_spec (length chunk + length (concat rest))
                (8 + body_len header + pad_len header)); [reflexivity | lia].
  - destruct (get_header_Some chunk Hc) as [h Hh]. congruence.
Qed.

(** A pass over a buffer that begins with a whole record removes exactly
    that record from the front of the pending bytes. *)
Lemma build_pass_Built (pd : list Buffer) :
  holds_record (concat pd) = true ->
  exists record rest,
    build_pass pd = Built record rest
    /\ is_record record = true
    /\ concat pd = record ++ concat rest.
Proof.
  unfold holds_record, build_pass. intros H.
  rewrite pending_bytes_concat, merge_front_concat.
  destruct (get_header (concat pd)) as [header|] eqn:G; [|discriminate].
  apply Nat.leb_le in H.
  destruct (get_header_bounds _ _ G) as [L _].
  destruct (Nat.ltb_spec (length (concat pd)) 8) as [L'|_]; [lia|].
  destruct (merge_front_head pd L) as [chunk [rest [E Hc]]].
  pose proof (merge_front_concat pd) as C. rewrite E in *. simpl in C.
  assert (G' : get_header chunk = Some header).
  { rewrite <- G, <- C. symmetry. now apply get_header_app. }
  rewrite G'.
  set (n := 8 + body_len header + pad_len header) in *.
  destruct (Nat.ltb_spec (length (concat pd)) n) as [L'|_]; [lia|].
  destruct (fill_record_spec n (Buffer_new n) 0 (chunk :: rest))
    as [pd' [F R]].
  - apply Buffer_new_length.
  - lia.
  - change (concat (chunk :: rest)) with (chunk ++ concat rest).
    rewrite C. lia.
  - change (concat (chunk :: rest)) with (chunk ++ concat rest) in F, R.
    rewrite C, Nat.sub_0_r in F, R. simpl in F. rewrite F.
    exists (firstn n (concat pd)), pd'. split; [reflexivity|]. split.
    + unfold is_record.
      assert (Hl : length (firstn n (concat pd)) = n)
        by (rewrite length_firstn; lia).
      rewrite <- (firstn_skipn n (concat pd)) in G.
      rewrite get_header_app in G by lia.
      rewrite G, Hl. apply Nat.eqb_refl.
    + rewrite R. symmetry. apply firstn_skipn.
Qed.

Lemma is_record_length (record : Buffer) :
  is_record record = true -> 8 <= length record.
Proof.
  unfold is_record. destruct (get_header record) eqn:G; [|discriminate].
  intros _. now destruct (get_header_bounds _ _ G).
Qed.

(** What a pass leaves pending is shorter by a whole record. *)
Lemma build_pass_decreases (pd : list Buffer) (record : Buffer)
    (rest : list Buffer) :
  build_pass pd = Built record rest ->
  pending_bytes rest + 8 <= pending_bytes pd.
Proof.
  intros H. destruct (holds_record (concat pd)) eqn:E.
  - destruct (build_pass_Built pd E) as [r [rest' [B [V C]]]].
    rewrite B in H. injection H as -> ->.
    rewrite !pending_bytes_concat, C, length_app.
    apply is_record_length in V. lia.
  - rewrite (build_pass_NoRecord pd E) in H. discriminate.
Qed.

(** ** Methods *)

(** [build_record]: passes are repeated for as long as one builds a record;
    the pending bytes are the measure. *)
Equations? build_record (this : FastCGIStream)
  : completion unit * FastCGIStream * list signal
  by wf (pending_bytes (pending_data this)) lt :=
build_record this with keep (build_pass (pending_data this)) := {
  | exist _ (NoRecord pending) _ :=
      emit_records (set_pending_data pending this);
  | exist _ (Raised e pending) _ :=
      (Throw e, set_pending_data pending this, []);
  | exist _ (Built record pending) _ :=
      build_record
        (set_records (records this ++ [record])
           (set_pending_data pending this)) }.
Proof.
  simpl. pose proof (build_pass_decreases _ _ _ e). lia.
Qed.

Definition pause : M unit :=
  assign (set_is_sending false) ;;
  this <- self ;;
  match source this with
  | Some src => if has_pause src then emit (source_pause src) else ret tt
  | None => ret tt
  end.

Definition resume : M unit :=
  assign (set_is_sending true) ;;
  this <- self ;;
  match source this with
  | Some src => if has_resume src then emit (source_resume src) else ret tt
  | None => ret tt
  end ;;
  emit_records.

(** [write(data, encoding)]; [data] is a Buffer or absent.  A Buffer is
    truthy whatever its length. *)
Definition write (data : option Buffer) : M bool :=
  match data with
  | Some chunk =>
      this <- self ;;
      assign (set_pending_data (pending_data this ++ [chunk]))
  | None => ret tt
  end ;;
  (build_record : M unit) ;;
  this <- self ;;
  ret (negb (is_ending this)).

(** [end(data, encoding)].  Its last statement reads [self], which is not
    bound in this function nor in the module. *)
Definition end_ (data : option Buffer) : M unit :=
  assign (set_is_ending true) ;;
  assign (set_writable false) ;;
  write data ;;
  this <- self ;;
  if negb (length (pending_data this) =? 0) then
    throw (ReferenceError "self")
  else ret tt.

Definition destroy : M unit :=
  assign (set_is_dead true) ;;
  assign (set_is_ending false) ;;
  assign (set_is_sending false) ;;
  this <- self ;;
  match source this with
  | Some src => if has_destroy src then emit (source_destroy src) else ret tt
  | None => ret tt
  end.

Definition destroySoon : M unit := throw (Error "not implemented").

Definition setEncoding : M unit :=
  throw (Error "setEncoding not allowed, only Buffer is supported").

Definition error (er : exn) : M bool :=
  assign (set_readable false) ;;
  assign (set_writable false) ;;
  emit (on_error er) ;;
  ret false.

(** [emit('pipe', src)] on the instance, as a producer's [pipe()] does: the
    listener of the constructor runs once, and installs the second one. *)
Definition pipe (src : Producer) : M unit :=
  this <- self ;;
  match pipe_handler this with
  | first_pipe =>
      assign (set_source (Some src)) ;;
      assign (set_pipe_handler later_pipe)
  | later_pipe =>
      this <- self ;;
      error (Error_source "Already have a pipe source" (source this)) ;;
      ret tt
  end.

(** ** Sequences of calls *)

(** The producer writes the chunks one after the other. *)
Fixpoint write_all (chunks : list Buffer) : M unit :=
  match chunks with
  | [] => ret tt
  | chunk :: rest => write (Some chunk) ;; write_all rest
  end.

(** A call on the instance from outside. *)
Inductive call :=
| call_write (data : option Buffer)
| call_end (data : option Buffer)
| call_pause
| call_resume
| call_destroy
| call_destroySoon
| call_setEncoding
| call_error (er : exn)
| call_pipe (src : Producer).

Definition perform (c : call) : M unit :=
  match c with
  | call_write data => write data ;; ret tt
  | call_end data => end_ data
  | call_pause => pause
  | call_resume => resume
  | call_destroy => destroy
  | call_destroySoon => destroySoon
  | call_setEncoding => setEncoding
  | call_error er => error er ;; ret tt
  | call_pipe src => pipe src
  end.

(** The calls are made in turn, whether the one before returned or threw;
    the instance afterwards and everything that was signalled. *)
Fixpoint run (calls : list call) (this : FastCGIStream)
  : FastCGIStream * list signal :=
  match calls with
  | [] => (this, [])
  | c :: rest =>
      let '(_, this1, out1) := perform c this in
      let '(this2, out2) := run rest this1 in
      (this2, out1 ++ out2)
  end.

(** ** The methods on a call stack of a given depth

    [build_record] calls itself once for each record that it builds, and
    JavaScript keeps the frame of the caller: [stack] is the number of
    nested calls of [build_record] that the call stack holds when [write]
    calls it.  The call that the stack does not hold throws a [RangeError],
    which nothing in the file catches.  The stack gives out at that call or
    at the start of the callee, before the callee touches the instance
    (the first calls of a pass go as deep as any later one); a pass that
    the stack holds runs to its end, the drain included.  [build_record],
    [write], [end_] and [run] above are these methods on a stack that holds
    every call. *)

(** [build_record] when the stack holds [stack] more calls of it: a pass,
    and the call to itself after [this.records.push(record)]. *)
Fixpoint build_record_on (stack : nat) (this : FastCGIStream)
  : completion unit * FastCGIStream * list signal :=
  match stack with
  | 0 => (Throw RangeError, this, [])
  | S deeper =>
      match build_pass (pending_data this) with
      | NoRecord pending => emit_records (set_pending_data pending this)
      | Raised e pending => (Throw e, set_pending_data pending this, [])
      | Built record pending =>
          build_record_on deeper
            (set_records (records this ++ [record])
               (set_pending_data pending this))
      end
  end.

(** [write(data, encoding)], [end(data, encoding)] and the calls from
    outside, with [build_record] on that stack. *)
Definition write_on (stack : nat) (data : option Buffer) : M bool :=
  match data with
  | Some chunk =>
      this <- self ;;
      assign (set_pending_data (pending_data this ++ [chunk]))
  | None => ret tt
  end ;;
  (build_record_on stack : M unit) ;;
  this <- self ;;
  ret (negb (is_ending this)).

Definition end_on (stack : nat) (data : option Buffer) : M unit :=
  assign (set_is_ending true) ;;
  assign (set_writable false) ;;
  write_on stack data ;;
  this <- self ;;
  if negb (length (pending_data this) =? 0) then
    throw (ReferenceError "self")
  else ret tt.

Fixpoint write_all_on (stack : nat) (chunks : list Buffer) : M unit :=
  match chunks with
  | [] => ret tt
  | chunk :: rest => write_on stack (Some chunk) ;; write_all_on stack rest
  end.

Definition perform_on (stack : nat) (c : call) : M unit :=
  match c with
  | call_write data => write_on stack data ;; ret tt
  | call_end data => end_on stack data
  | call_pause => pause
  | call_resume => resume
  | call_destroy => destroy
  | call_destroySoon => destroySoon
  | call_setEncoding => setEncoding
  | call_error er => error er ;; ret tt
  | call_pipe src => pipe src
  end.

(** The call ended with the stack exhausted. *)
Definition is_overflow {A : Type} (r : completion A) : bool :=
  match r with
  | Throw RangeError => true
  | _ => false
  end.

(** The calls are made in turn, each from the same depth; with the instance
    afterwards and what was signalled, whether the stack held every call. *)
Fixpoint run_on (stack : nat) (calls : list call) (this : FastCGIStream)
  : bool * FastCGIStream * list signal :=
  match calls with
  | [] => (true, this, [])
  | c :: rest =>
      let '(r, this1, out1) := perform_on stack c this in
      let '(held, this2, out2) := run_on stack rest this1 in
      (negb (is_overflow r) && held, this2, out1 ++ out2)
  end.

End Framer.

Arguments merge_front : simpl never.
Arguments fill_record : simpl never.
Arguments build_record : simpl never.
Arguments write : simpl never.
Arguments end_ : simpl never.
Arguments write_on : simpl never.
Arguments end_on : simpl never.

(** * [normalize_data]

    No method of the file calls [normalize_data], and nothing in the file
    assigns the fields [feed] and [expect] that it reads: they are kept in a
    record of their own, passed to the method and returned by it. *)

(** A JavaScript string: its code units, in order. *)
Definition js_string := list Ascii.ascii.

(** The [data] argument: a Buffer, [undefined], a string, or any other
    value (numbered, so that [util.inspect] can tell them apart). *)
Inductive js_data :=
| data_Buffer (b : Buffer)
| data_undefined
| data_string (s : js_string)
| data_other (id : nat).

(** The field [expect]: [undefined] (as the constructor leaves it), [null]
    or a string. *)
Inductive expectation :=
| expect_undefined
| expect_null
| expect_string (s : js_string).

(** The two fields that only [normalize_data] reads.  [feed] is [None] when
    it holds no string. *)
Record FeedFields := {
  feed : option js_string;
  expect : expectation
}.

(** The constructor assigns neither. *)
Definition FeedFields_new : FeedFields :=
  {| feed := None; expect := expect_undefined |}.

Definition set_expect (v : expectation) (fields : FeedFields) : FeedFields :=
  {| feed := feed fields; expect := v |}.

(** [a === b] on strings. *)
Definition js_string_eqb (a b : js_string) : bool :=
  if list_eq_dec Ascii.ascii_dec a b then true else false.

(** [s.substr(start, length)] and [s.substr(start)]. *)
Definition substr (s : js_string) (start length : nat) : js_string :=
  firstn length (skipn start s).
Definition substr_from (s : js_string) (start : nat) : js_string :=
  skipn start s.

Definition continuous : js_string := String.list_ascii_of_string "continuous".
Definition longpoll : js_string := String.list_ascii_of_string "longpoll".

(** [this.feed === s] *)
Definition feed_is (s : js_string) (fields : FeedFields) : bool :=
  match feed fields with
  | Some f => js_string_eqb f s
  | None => false
  end.

(** The text between double quotes. *)
Definition double_quote : Ascii.ascii := Ascii.ascii_of_nat 34.
Definition quoted (s : String.string) : String.string :=
  String.String double_quote
    (String.append s (String.String double_quote String.EmptyString)).

Definition feed_message : String.string :=
  String.append "Must set .feed to "
    (String.append (quoted "continuous")
       (String.append " or "
          (String.append (quoted "longpoll") " before writing data"))).

Section Normalize.

(** [util.inspect(value)], and [buffer.toString(encoding)], which returns a
    string or throws (on an encoding that it does not know). *)
Variable inspect : js_data -> String.string.
Variable toString : Buffer -> option js_string -> js_string + exn.

(** [normalize_data(data, encoding)]; an [encoding] is a string or absent.
    The fields [feed] and [expect] are passed in and returned with the
    result, which is a string or the [false] that [error] returns.  An
    exception is thrown only before [expect] is assigned. *)
Definition normalize_data (data : js_data) (encoding : option js_string)
    (fields : FeedFields) : M (FeedFields * (js_string + bool)) :=
  data <- match data, encoding with
          | data_Buffer b, _ =>
              match toString b encoding with
              | inl s => ret (data_string s)
              | inr e => throw e
              end
          | data_undefined, None => ret (data_string [])
          | _, _ => ret data
          end ;;
  match data with
  | data_string data =>
      if negb (feed_is continuous fields) && negb (feed_is longpoll fields)
      then
        r <- error (Error feed_message) ;;
        ret (fields, inr r)
      else
        match (match expect fields with
               | expect_null => Some []
               | expect_string e => Some e
               | expect_undefined => None
               end) with
        | None => throw TypeError
        | Some expected =>
            let prefix := substr data 0 (length expected) in
            let data := substr_from data (length prefix) in
            let expected_part := substr expected 0 (length prefix) in
            let expected_remainder :=
              substr_from expected (length expected_part) in
            if negb (js_string_eqb prefix expected_part) then
              r <- error
                     (Error
                        (String.append "Prefix not expected "
                           (String.append (inspect (data_string expected_part))
                              (String.append ": "
                                 (inspect (data_string prefix)))))) ;;
              ret (set_expect (expect_string expected) fields, inr r)
            else
              ret (set_expect (expect_string expected_remainder) fields,
                   inl data)
        end
  | _ =>
      r <- error
             (Error (String.append "Not a string or Buffer: " (inspect data)))
        ;;
      ret (fields, inr r)
  end.

(** The strings are normalized one after the other, for as long as a string
    is returned. *)
Fixpoint normalize_all (chunks : list js_string) (fields : FeedFields)
  : M (FeedFields * list js_string) :=
  match chunks with
  | [] => ret (fields, [])
  | chunk :: rest =>
      r <- normalize_data (data_string chunk) None fields ;;
      match r with
      | (fields1, inl data) =>
          r' <- normalize_all rest fields1 ;;
          ret (fst r', data :: snd r')
      | (fields1, inr _) => ret (fields1, [])
      end
  end.

End Normalize.

(** * Vocabulary of the statements *)

(** Every element is one record. *)
Definition all_records (rs : list Buffer) : Prop :=
  Forall (fun r => is_record r = true) rs.

(** The instance after [emit_records], and what it signals. *)
Definition after_drain (this : FastCGIStream) : FastCGIStream :=
  if is_sending this then
    if is_ending this
    then set_readable false (set_is_ending false (set_records [] this))
    else set_records [] this
  else this.

Definition drain_signals (this : FastCGIStream) : list signal :=
  if is_sending this then
    map on_data (records this) ++ (if is_ending this then [on_end] else [])
  else [].

(** What a call to the producer signals: nothing when no producer is
    attached or when it lacks the method. *)
Definition to_source (has : Producer -> bool) (sig : Producer -> signal)
    (this : FastCGIStream) : list signal :=
  match source this with
  | Some src => if has src then [sig src] else []
  | None => []
  end.

(** The chunk that [write] appends, if any. *)
Definition pushed (data : option Buffer) (this : FastCGIStream)
  : FastCGIStream :=
  match data with
  | Some chunk => set_pending_data (pending_data this ++ [chunk]) this
  | None => this
  end.

Definition bytes_of (data : option Buffer) : Buffer :=
  match data with Some chunk => chunk | None => [] end.

(** The instance after a call and what the call signals, in closed form:
    [fs] are the records that the call moves to the queue and [pending] the
    chunks it leaves. *)
Definition effect (c : call) (fs pending : list Buffer)
    (this : FastCGIStream) : FastCGIStream * list signal :=
  match c with
  | call_write _ =>
      let queued :=
        set_records (records this ++ fs) (set_pending_data pending this) in
      (after_drain queued, drain_signals queued)
  | call_end _ =>
      let queued :=
        set_records (records this ++ fs)
          (set_pending_data pending
             (set_writable false (set_is_ending true this))) in
      (after_drain queued, drain_signals queued)
  | call_pause =>
      (set_is_sending false this, to_source has_pause source_pause this)
  | call_resume =>
      (after_drain (set_is_sending true this),
       to_source has_resume source_resume this
       ++ drain_signals (set_is_sending true this))
  | call_destroy =>
      (set_is_sending false (set_is_ending false (set_is_dead true this)),
       to_source has_destroy source_destroy this)
  | call_destroySoon | call_setEncoding => (this, [])
  | call_error er =>
      (set_writable false (set_readable false this), [on_error er])
  | call_pipe src =>
      match pipe_handler this with
      | first_pipe =>
          (set_pipe_handler later_pipe (set_source (Some src) this), [])
      | later_pipe =>
          (set_writable false (set_readable false this),
           [on_error
              (Error_source "Already have a pipe source" (source this))])
      end
  end.

(** The instance that a call leaves when the stack gives out under it: the
    records built so far are queued and nothing is drained. *)
Definition stranded (c : call) (fs pending : list Buffer)
    (this : FastCGIStream) : FastCGIStream :=
  match c with
  | call_end _ =>
      set_records (records this ++ fs)
        (set_pending_data pending
           (set_writable false (set_is_ending true this)))
  | _ => set_records (records this ++ fs) (set_pending_data pending this)
  end.

(** The signal delivers nothing but a whole record. *)
Definition delivers_whole (s : signal) : Prop :=
  match s with
  | on_data record => is_record record = true
  | _ => True
  end.

(** A signal that delivers to the consumer of the records. *)
Definition is_delivery (s : signal) : bool :=
  match s with
  | on_data _ | on_end => true
  | _ => false
  end.

(** The call is [resume()]. *)
Definition is_resume (c : call) : bool :=
  match c with call_resume => true | _ => false end.

(** The number of [end] signals. *)
Definition count_end (out : list signal) : nat :=
  length (filter (fun s => match s with on_end => true | _ => false end) out).

(** The number of calls of [end()]. *)
Definition count_call_end (calls : list call) : nat :=
  length (filter (fun c => match c with call_end _ => true | _ => false end)
            calls).

(** The calls that write the chunks one after the other. *)
Definition writes (chunks : list Buffer) : list call :=
  map (fun chunk => call_write (Some chunk)) chunks.

(** ** Bytes, records and calls *)

(** What the copy loop leaves of the chunks when it takes [n] bytes: whole
    chunks are removed for as long as bytes are needed, and the chunk that
    holds more than is needed is cut. *)
Fixpoint drop_bytes (n : nat) (pd : list Buffer) : list Buffer :=
  match pd with
  | [] => []
  | chunk :: rest =>
      if n =? 0 then pd
      else if length chunk <=? n then drop_bytes (n - length chunk) rest
      else slice chunk n :: rest
  end.

(** A pass in closed form: the bytes decide it, the chunk boundaries only
    shape what is left. *)
Definition pass_of (pd : list Buffer) : pass :=
  match get_header (concat pd) with
  | Some header =>
      let record_bytes := 8 + body_len header + pad_len header in
      if record_bytes <=? length (concat pd)
      then Built (firstn record_bytes (concat pd))
             (drop_bytes record_bytes (merge_front pd))
      else NoRecord (merge_front pd)
  | None => NoRecord (merge_front pd)
  end.

(** The records that the [data] signals carry, in order. *)
Definition delivered (out : list signal) : list Buffer :=
  flat_map (fun s => match s with on_data record => [record] | _ => [] end)
    out.

(** The bytes that the calls hand to [write] and [end], in order. *)
Definition call_bytes (c : call) : Buffer :=
  match c with
  | call_write data | call_end data => bytes_of data
  | _ => []
  end.

Definition written (calls : list call) : Buffer := flat_map call_bytes calls.

(** The records delivered so far ([seen]), those queued and the pending
    bytes make up the bytes written so far ([bytes]); delivered and queued
    records are whole and the pending bytes do not begin with one. *)
Definition framed (seen : list Buffer) (bytes : Buffer)
    (this : FastCGIStream) : Prop :=
  all_records (seen ++ records this)
  /\ holds_record (concat (pending_data this)) = false
  /\ concat (seen ++ records this) ++ concat (pending_data this) = bytes.

(** What holds of an instance between calls: moreover nothing is queued
    while it is sending. *)
Definition settled (seen : list Buffer) (bytes : Buffer)
    (this : FastCGIStream) : Prop :=
  framed seen bytes this /\ (is_sending this = true -> records this = []).

(** Each group is at least one record; a group is written as one chunk. *)
Definition aligned (groups : list (list Buffer)) : bool :=
  forallb (fun g => negb (length g =? 0) && forallb is_record g) groups.

(** The signal is an [error]. *)
Definition is_error (s : signal) : bool :=
  match s with on_error _ => true | _ => false end.

(** The call is neither [error] nor a ['pipe'] event: it hands bytes to the
    instance, steers its flow or destroys it. *)
Definition is_traffic (c : call) : bool :=
  match c with
  | call_error _ | call_pipe _ => false
  | _ => true
  end.

(** The call is one of the two that the stream does not support. *)
Definition is_unsupported (c : call) : bool :=
  match c with
  | call_destroySoon | call_setEncoding => true
  | _ => false
  end.

(** The producer that a signal calls, if it calls one. *)
Definition producer_of (s : signal) : option Producer :=
  match s with
  | source_pause src | source_resume src | source_destroy src => Some src
  | _ => None
  end.

(** The producer has the method that the signal calls. *)
Definition has_method (s : signal) : bool :=
  match s with
  | source_pause src => has_pause src
  | source_resume src => has_resume src
  | source_destroy src => has_destroy src
  | _ => true
  end.

(** The producer of the first ['pipe'] event among the calls. *)
Definition first_piped (calls : list call) : option Producer :=
  head (flat_map (fun c => match c with call_pipe src => [src] | _ => [] end)
          calls).

(** [feed] holds one of the two strings that [normalize_data] accepts. *)
Definition feed_set (fields : FeedFields) : bool :=
  feed_is continuous fields || feed_is longpoll fields.

(** [feed] is set so, and [expect] is not [undefined]. *)
Definition fields_set (fields : FeedFields) : bool :=
  feed_set fields
  && match expect fields with expect_undefined => false | _ => true end.

(** The string that [normalize_data] makes of its arguments before it looks
    at the fields, if it makes one. *)
Definition as_string (toString : Buffer -> option js_string -> js_string + exn)
    (data : js_data) (encoding : option js_string) : option js_string :=
  match data, encoding with
  | data_Buffer b, _ =>
      match toString b encoding with inl s => Some s | inr _ => None end
  | data_undefined, None => Some []
  | data_string s, _ => Some s
  | _, _ => None
  end.

(** ** Sample data *)

Definition zeroed : nat -> byte := fun _ => "000"%byte.
Definition ones : nat -> byte := fun _ => "255"%byte.

(** version 1, type 1, request 1, two bytes of content, one of padding *)
Definition record_a : Buffer :=
  ["001"; "001"; "000"; "001"; "000"; "002"; "001"; "000"; "a"; "b";
   "255"]%byte.

(** version 1, type 5, request 1, no content, no padding *)
Definition record_b : Buffer :=
  ["001"; "005"; "000"; "001"; "000"; "000"; "000"; "000"]%byte.

(** version 1, type 4, request 1, three bytes of content, no padding *)
Definition record_c : Buffer :=
  ["001"; "004"; "000"; "001"; "000"; "003"; "000"; "000"; "k"; "=";
   "v"]%byte.

(** [record_a] cut inside its header, with an empty chunk on the way. *)
Definition record_a_split : list Buffer :=
  [["001"; "001"; "000"; "001"; "000"]; ["002"; "001"]; [];
   ["000"; "a"; "b"; "255"]]%byte.

(** [record_a] in five chunks and the first byte of a next record. *)
Definition split_pending : list Buffer :=
  [["001"]; []; ["001"; "000"; "001"; "000"]; ["002"; "001"; "000"; "a"];
   ["b"; "255"; "001"]]%byte.

Definition upstream : Producer :=
  {| producer_id := 1; has_pause := true; has_resume := true;
     has_destroy := true |}.

Definition intruder : Producer :=
  {| producer_id := 2; has_pause := false; has_resume := false;
     has_destroy := false |}.

(** A new instance after [upstream.pipe(stream)]. *)
Definition piped : FastCGIStream :=
  set_pipe_handler later_pipe (set_source (Some upstream) FastCGIStream_new).

Definition after_destroy : list call :=
  [call_write (Some record_a); call_end (Some record_b); call_pause;
   call_pipe upstream; call_destroy].

(** Writes while paused, then [resume()]. *)
Definition paused_then_resumed : list call :=
  [call_pause; call_write (Some record_a); call_resume].

(** [record_a], [record_b] and the first three bytes of [record_c], cut
    inside the header of [record_a], with other calls in between. *)
Definition mixed_calls : list call :=
  [call_write (Some (firstn 5 record_a)); call_pause; call_setEncoding;
   call_write (Some (skipn 5 record_a ++ record_b ++ firstn 3 record_c));
   call_pipe upstream; call_resume].

Definition traffic : list call :=
  [call_write (Some record_a); call_pause; call_end (Some record_b);
   call_resume; call_destroy; call_destroySoon].

(** The header of [record_a]. *)
Definition header_a : Header :=
  {| version := 1; type := 1; req_id := 1; body_len := 2; pad_len := 1;
     reserved := 0 |}.

Definition sample_inspect (value : js_data) : String.string :=
  match value with
  | data_string s => String.string_of_list_ascii s
  | _ => "[object]"
  end.

(** One byte, one code unit; no encoding is known. *)
Definition sample_toString (b : Buffer) (encoding : option js_string)
  : js_string + exn :=
  match encoding with
  | None => inl (map Ascii.ascii_of_byte b)
  | Some _ => inr (Error "Unknown encoding")
  end.

(** The strings [a], [bc] and [d]. *)
Definition prefixed_chunks : list js_string :=
  map String.list_ascii_of_string ["a"%string; "bc"%string; "d"%string].

(** [feed] is ['longpoll'] and [ab] is expected. *)
Definition fed : FeedFields :=
  {| feed := Some longpoll;
     expect := expect_string (String.list_ascii_of_string "ab") |}.

(** * Properties *)

(** ** Whole records on a byte stream *)

Lemma merge_front_length (pd : list Buffer) :
  length (merge_front pd) <= length pd.
Proof.
  funelim (merge_front pd); try lia.
  simpl in *. lia.
Qed.

Lemma is_record_header (r : Buffer) :
  is_record r = true ->
  exists header,
    get_header r = Some header
    /\ length r = 8 + body_len header + pad_len header /\ 8 <= length r.
Proof.
  unfold is_record. destruct (get_header r) as [header|] eqn:G; [|discriminate].
  intros H. apply Nat.eqb_eq in H. exists header. repeat split; auto. lia.
Qed.

Lemma is_record_holds (r rest : Buffer) :
  is_record r = true -> holds_record (r ++ rest) = true.
Proof.
  intros H. destruct (is_record_header r H) as [header [G [L L8]]].
  unfold holds_record. rewrite get_header_app, G by assumption.
  apply Nat.leb_le. rewrite length_app. lia.
Qed.

(** A byte stream begins with at most one record. *)
Lemma record_prefix_unique (r r' x x' : Buffer) :
  is_record r = true -> is_record r' = true -> r ++ x = r' ++ x' ->
  r = r' /\ x = x'.
Proof.
  intros H H' E.
  destruct (is_record_header r H) as [h [G [L L8]]].
  destruct (is_record_header r' H') as [h' [G' [L' L8']]].
  assert (Hh : h = h').
  { rewrite <- (get_header_app r x), E, get_header_app in G by assumption.
    congruence. }
  subst h'.
  assert (Hl : length r = length r') by lia.
  split.
  - apply (f_equal (firstn (length r))) in E.
    rewrite firstn_app, Nat.sub_diag, firstn_O, app_nil_r, firstn_all in E.
    rewrite Hl, firstn_app, Nat.sub_diag, firstn_O, app_nil_r, firstn_all in E.
    exact E.
  - apply (f_equal (skipn (length r))) in E.
    rewrite skipn_app, Nat.sub_diag, skipn_all in E. simpl in E.
    rewrite Hl, skipn_app, Nat.sub_diag, skipn_all in E. exact E.
Qed.

(** A byte stream splits in one way only into whole records followed by
    bytes that do not begin with a whole record. *)
Lemma frames_unique (fs fs' : list Buffer) (rest rest' : Buffer) :
  all_records fs -> all_records fs' ->
  holds_record rest = false -> holds_record rest' = false ->
  concat fs ++ rest = concat fs' ++ rest' ->
  fs = fs' /\ rest = rest'.
Proof.
  intros F. revert fs'. induction F as [|r fs V F IH]; intros fs' F' N N' E.
  - destruct F' as [|r' fs' V' F']; [auto|].
    simpl in E. rewrite <- app_assoc in E. subst rest.
    rewrite is_record_holds in N by assumption. discriminate.
  - destruct F' as [|r' fs' V' F'].
    + simpl in E. rewrite <- app_assoc in E. subst rest'.
      rewrite is_record_holds in N' by assumption. discriminate.
    + simpl in E. rewrite <- !app_assoc in E.
      destruct (record_prefix_unique _ _ _ _ V V' E) as [-> E'].
      destruct (IH fs' F' N N' E') as [-> ->]. auto.
Qed.

(** ** Draining *)

Ltac run_M :=
  cbv [bind ret Monad_M M_bind M_ret self assign emit throw].

Lemma emit_queue_sending (queue : list Buffer) (this : FastCGIStream) :
  is_sending this = true ->
  emit_queue queue this
  = (Normal tt,
     set_records (match queue with [] => records this | _ => [] end) this,
     map on_data queue).
Proof.
  revert this. induction queue as [|record rest IH]; intros this S.
  - destruct this; reflexivity.
  - simpl. run_M. rewrite S. rewrite IH by exact S.
    destruct this, rest; reflexivity.
Qed.

Lemma emit_queue_paused (queue : list Buffer) (this : FastCGIStream) :
  is_sending this = false -> emit_queue queue this = (Normal tt, this, []).
Proof.
  intros S. destruct queue; simpl; run_M; [reflexivity|]. now rewrite S.
Qed.

Lemma emit_records_sending (this : FastCGIStream) :
  is_sending this = true ->
  emit_records this
  = (Normal tt,
     (if is_ending this
      then set_readable false (set_is_ending false (set_records [] this))
      else set_records [] this),
     map on_data (records this) ++ (if is_ending this then [on_end] else [])).
Proof.
  intros S. unfold emit_records. run_M.
  rewrite (emit_queue_sending _ _ S).
  destruct this as [r w e s d p q src h]; simpl in *. subst s.
  destruct q, e; simpl; rewrite ?app_nil_r; reflexivity.
Qed.

Lemma emit_records_paused (this : FastCGIStream) :
  is_sending this = false -> emit_records this = (Normal tt, this, []).
Proof.
  intros S. unfold emit_records. run_M.
  rewrite (emit_queue_paused _ _ S). now rewrite S.
Qed.

Lemma emit_records_eq (this : FastCGIStream) :
  emit_records this = (Normal tt, after_drain this, drain_signals this).
Proof.
  unfold after_drain, drain_signals. destruct (is_sending this) eqn:S.
  - now apply emit_records_sending.
  - now apply emit_records_paused.
Qed.

(** Evaluates the field updates, innermost first. *)
Ltac setters :=
  cbv [after_drain drain_signals set_readable set_writable set_is_ending
       set_is_sending set_is_dead set_pending_data set_records set_source
       set_pipe_handler readable writable is_ending is_sending is_dead
       pending_data records source pipe_handler] in *;
  simpl in *.

Lemma forallb_all_records (rs : list Buffer) :
  forallb is_record rs = true -> all_records rs.
Proof.
  intros H. apply Forall_forall. intros r I.
  rewrite forallb_forall in H. now apply H.
Qed.

Lemma all_records_forallb (rs : list Buffer) :
  all_records rs -> forallb is_record rs = true.
Proof.
  intros H. apply forallb_forall. intros r I.
  unfold all_records in H. rewrite Forall_forall in H. now apply H.
Qed.

Lemma concat_singletons (r : Buffer) : concat (map (fun b => [b]) r) = r.
Proof. induction r as [|b r IH]; simpl; [|rewrite IH]; reflexivity. Qed.

Lemma pause_eq (this : FastCGIStream) :
  pause this
  = (Normal tt, set_is_sending false this,
     to_source has_pause source_pause this).
Proof.
  unfold pause, to_source. run_M.
  destruct this as [r w e s d p q [src|] h]; simpl; [|reflexivity].
  destruct (has_pause src); reflexivity.
Qed.

Lemma resume_eq (this : FastCGIStream) :
  resume this
  = (Normal tt, after_drain (set_is_sending true this),
     to_source has_resume source_resume this
     ++ drain_signals (set_is_sending true this)).
Proof.
  unfold resume, to_source. run_M.
  destruct this as [r w e s d p q [src|] h]; simpl;
    [destruct (has_resume src); simpl|]; rewrite emit_records_eq; reflexivity.
Qed.

Section FramerFacts.

Variable uninit : nat -> byte.

(** [build_record] as the code has it: a pass, and the call to itself after
    [this.records.push(record)]. *)
Lemma build_record_body (this : FastCGIStream) :
  build_record uninit this
  = match build_pass uninit (pending_data this) with
    | NoRecord pending => emit_records (set_pending_data pending this)
    | Raised e pending => (Throw e, set_pending_data pending this, [])
    | Built record pending =>
        build_record uninit
          (set_records (records this ++ [record])
             (set_pending_data pending this))
    end.
Proof.
  rewrite build_record_equation_1.
  destruct (keep (build_pass uninit (pending_data this))) as [p e].
  etransitivity; [|rewrite e; reflexivity].
  destruct p; simp build_record; reflexivity.
Qed.
Lemma build_pass_cases (pd : list Buffer) :
  (holds_record (concat pd) = false
   /\ build_pass uninit pd = NoRecord (merge_front pd))
  \/ (exists record rest,
        build_pass uninit pd = Built record rest
        /\ is_record record = true
        /\ concat pd = record ++ concat rest).
Proof.
  destruct (holds_record (concat pd)) eqn:E.
  - right. now apply build_pass_Built.
  - left. split; [reflexivity|]. now apply build_pass_NoRecord.
Qed.

Lemma build_pass_never_raises (pd : list Buffer) (e : exn)
    (rest : list Buffer) :
  build_pass uninit pd <> Raised e rest.
Proof.
  destruct (build_pass_cases pd) as [[_ E]|[r [p [E _]]]]; rewrite E;
    discriminate.
Qed.

Lemma build_record_spec (this : FastCGIStream) :
  exists fs pending,
    build_record uninit this
    = emit_records
        (set_records (records this ++ fs) (set_pending_data pending this))
    /\ Forall (fun r => is_record r = true) fs
    /\ concat (pending_data this) = concat fs ++ concat pending
    /\ holds_record (concat pending) = false.
Proof.
  funelim (build_record uninit this).
  - clear Heqcall.
    destruct (build_pass_cases (pending_data this))
      as [[N E]|[r [p [E _]]]]; pose proof e as e'; rewrite E in e';
      [|discriminate].
    injection e' as <-.
    exists [], (merge_front (pending_data this)).
    rewrite merge_front_concat, app_nil_r. repeat split; auto.
  - clear Heqcall.
    destruct (build_pass_cases (pending_data this))
      as [[N E]|[r [p [E [V C]]]]]; pose proof e as e'; rewrite E in e';
      [discriminate|].
    injection e' as <- <-.
    match goal with
    | IH : exists _, _ |- _ => destruct IH as [fs [pending' [B [F [C' N]]]]]
    end.
    exists (r :: fs), pending'. rewrite B. repeat split; auto.
    + destruct this; simpl. now rewrite <- app_assoc.
    + rewrite C. simpl in *. rewrite C'. now rewrite app_assoc.
  - exfalso. eapply build_pass_never_raises. eassumption.
Qed.

(** [build_record] moves every whole record that the pending bytes begin
    with to the queue, in order, and drains; it does not throw. *)
Lemma build_record_eq (this : FastCGIStream) :
  exists fs pending,
    all_records fs
    /\ concat (pending_data this) = concat fs ++ concat pending
    /\ holds_record (concat pending) = false
    /\ let queued :=
         set_records (records this ++ fs) (set_pending_data pending this) in
       build_record uninit this
       = (Normal tt, after_drain queued, drain_signals queued).
Proof.
  destruct (build_record_spec this) as [fs [pending [B [F [C N]]]]].
  exists fs, pending. repeat split; auto.
  simpl. rewrite B. apply emit_records_eq.
Qed.

Lemma write_unfold (data : option Buffer) (this : FastCGIStream) :
  write uninit data this
  = match build_record uninit (pushed data this) with
    | (Normal _, this1, out) => (Normal (negb (is_ending this1)), this1, out)
    | (Throw e, this1, out) => (Throw e, this1, out)
    end.
Proof.
  unfold write. run_M.
  destruct data as [chunk|]; simpl;
    destruct (build_record uninit _) as [[[[]|e] this1] out];
    rewrite ?app_nil_r; reflexivity.
Qed.

Lemma write_eq (data : option Buffer) (this : FastCGIStream) :
  exists fs pending,
    all_records fs
    /\ concat (pending_data this) ++ bytes_of data
       = concat fs ++ concat pending
    /\ holds_record (concat pending) = false
    /\ let queued :=
         set_records (records this ++ fs) (set_pending_data pending this) in
       write uninit data this
       = (Normal (negb (is_ending (after_drain queued))),
          after_drain queued, drain_signals queued).
Proof.
  destruct (build_record_eq (pushed data this)) as [fs [pending [F [C [N B]]]]].
  exists fs, pending. repeat split; auto.
  - rewrite <- C. destruct data; simpl.
    + rewrite concat_app. simpl. now rewrite app_nil_r.
    + now rewrite app_nil_r.
  - simpl in *. rewrite write_unfold, B.
    destruct data, this; reflexivity.
Qed.

Lemma write_all_cons (chunk : Buffer) (rest : list Buffer)
    (this : FastCGIStream) :
  write_all uninit (chunk :: rest) this
  = match write uninit (Some chunk) this with
    | (Normal _, this1, out1) =>
        let '(r, this2, out2) := write_all uninit rest this1 in
        (r, this2, out1 ++ out2)
    | (Throw e, this1, out1) => (Throw e, this1, out1)
    end.
Proof. reflexivity. Qed.

(** Writing chunks to an instance that is not ending and whose queue is
    empty whenever it is sending: the whole records of the byte stream are
    signalled in order if it is sending, and appended to the queue if not. *)
Lemma write_all_eq (chunks : list Buffer) (this : FastCGIStream) :
  is_ending this = false ->
  (is_sending this = true -> records this = []) ->
  holds_record (concat (pending_data this)) = false ->
  exists fs pending,
    all_records fs
    /\ concat (pending_data this) ++ concat chunks
       = concat fs ++ concat pending
    /\ holds_record (concat pending) = false
    /\ write_all uninit chunks this
       = (Normal tt,
          set_records (if is_sending this then [] else records this ++ fs)
            (set_pending_data pending this),
          if is_sending this then map on_data fs else []).
Proof.
  revert this. induction chunks as [|chunk rest IH]; intros this E Q N.
  - exists [], (pending_data this).
    split; [constructor|]. split; [apply app_nil_r|]. split; [exact N|].
    destruct this as [r w e s d p q src h]; simpl in *.
    destruct s; [rewrite Q by reflexivity|rewrite app_nil_r]; reflexivity.
  - destruct (write_eq (Some chunk) this) as [fs1 [p1 [F1 [C1 [N1 W]]]]].
    simpl in C1, W. rewrite write_all_cons, W. clear W.
    destruct this as [r w e s d p q src h]; simpl in *. subst e.
    destruct s; setters.
    + rewrite (Q eq_refl). simpl.
      match goal with
      | |- context [write_all uninit rest ?st] =>
          destruct (IH st) as [fs2 [p2 [F2 [C2 [N2 W2]]]]];
            [reflexivity|reflexivity|exact N1|]
      end.
      setters. rewrite W2.
      exists (fs1 ++ fs2), p2.
      split; [now apply Forall_app|]. split.
      { rewrite app_assoc, C1, <- app_assoc, C2, concat_app.
        now rewrite app_assoc. }
      split; [exact N2|]. now rewrite map_app, app_nil_r.
    + match goal with
      | |- context [write_all uninit rest ?st] =>
          destruct (IH st) as [fs2 [p2 [F2 [C2 [N2 W2]]]]];
            [reflexivity|discriminate|exact N1|]
      end.
      setters. rewrite W2.
      exists (fs1 ++ fs2), p2.
      split; [now apply Forall_app|]. split.
      { rewrite app_assoc, C1, <- app_assoc, C2, concat_app.
        now rewrite app_assoc. }
      split; [exact N2|]. now rewrite <- app_assoc.
Qed.

(** When the bytes written are whole records and nothing was pending, the
    records found are those. *)
Lemma whole_records_found (rs fs : list Buffer) (pending : list Buffer) :
  all_records rs -> all_records fs ->
  holds_record (concat pending) = false ->
  concat rs = concat fs ++ concat pending ->
  fs = rs /\ concat pending = [].
Proof.
  intros R F N C.
  destruct (frames_unique fs rs (concat pending) [] F R N eq_refl) as [-> E].
  - now rewrite app_nil_r.
  - auto.
Qed.
Lemma write_all_fresh (rs chunks : list Buffer) :
  all_records rs -> concat chunks = concat rs ->
  exists pending,
    concat pending = []
    /\ write_all uninit chunks FastCGIStream_new
       = (Normal tt, set_pending_data pending FastCGIStream_new,
          map on_data rs).
Proof.
  intros R C.
  destruct (write_all_eq chunks FastCGIStream_new)
    as [fs [pending [F [C' [N W]]]]]; try reflexivity.
  simpl in C', W. rewrite C in C'.
  destruct (whole_records_found rs fs pending R F N C') as [-> E].
  exists pending. split; [exact E|]. exact W.
Qed.
(** One write of whole records to a new instance signals them all. *)
Lemma write_whole_records (rs : list Buffer) :
  all_records rs ->
  exists pending,
    concat pending = []
    /\ write uninit (Some (concat rs)) FastCGIStream_new
       = (Normal true, set_pending_data pending FastCGIStream_new,
          map on_data rs).
Proof.
  intros R.
  destruct (write_eq (Some (concat rs)) FastCGIStream_new)
    as [fs [pending [F [C [N W]]]]].
  simpl in C, W.
  destruct (whole_records_found rs fs pending R F N C) as [-> E].
  exists pending. split; [exact E|].
  rewrite W. setters. now rewrite app_nil_r.
Qed.

Lemma build_record_normal (this : FastCGIStream) :
  exists this' out, build_record uninit this = (Normal tt, this', out).
Proof.
  destruct (build_record_eq this) as [fs [pending [_ [_ [_ B]]]]].
  rewrite B. eauto.
Qed.

Lemma end_unfold (data : option Buffer) (this : FastCGIStream) :
  end_ uninit data this
  = match write uninit data (set_writable false (set_is_ending true this)) with
    | (Normal _, this1, out) =>
        (if negb (length (pending_data this1) =? 0)
         then Throw (ReferenceError "self") else Normal tt,
         this1, out)
    | (Throw e, this1, out) => (Throw e, this1, out)
    end.
Proof.
  unfold end_. run_M.
  destruct (write uninit data _) as [[[b|e] this1] out]; [|reflexivity].
  destruct (negb _); now rewrite app_nil_r.
Qed.

(** [end]: the records found are queued and drained with [is_ending] set;
    then [self] is read if a chunk is left. *)
Lemma end_eq (data : option Buffer) (this : FastCGIStream) :
  exists fs pending,
    all_records fs
    /\ concat (pending_data this) ++ bytes_of data
       = concat fs ++ concat pending
    /\ holds_record (concat pending) = false
    /\ let queued :=
         set_records (records this ++ fs)
           (set_pending_data pending
              (set_writable false (set_is_ending true this))) in
       end_ uninit data this
       = (match pending with
          | [] => Normal tt
          | _ :: _ => Throw (ReferenceError "self")
          end,
          after_drain queued, drain_signals queued).
Proof.
  destruct (write_eq data (set_writable false (set_is_ending true this)))
    as [fs [pending [F [C [N W]]]]].
  exists fs, pending. split; [exact F|]. split.
  { rewrite <- C. now destruct this. }
  split; [exact N|].
  simpl in *. rewrite end_unfold, W.
  destruct this as [r w e s d p q src h]. setters.
  destruct s, pending; reflexivity.
Qed.

End FramerFacts.

Lemma no_error_in_drain (this : FastCGIStream) (er : exn) :
  ~ In (on_error er) (drain_signals this).
Proof.
  unfold drain_signals. destruct (is_sending this); [|intros []].
  intros H. apply in_app_or in H. destruct H as [H|H].
  - apply in_map_iff in H. destruct H as [r [H _]]. discriminate.
  - destruct (is_ending this); simpl in H; [destruct H as [H|[]]|destruct H].
    discriminate.
Qed.

Lemma readUInt8_in_bounds (chunk : Buffer) (offset : nat) :
  offset < length chunk -> readUInt8 chunk offset <> None.
Proof.
  intros H. unfold readUInt8.
  destruct (nth_error chunk offset) eqn:E; [discriminate|].
  apply nth_error_None in E. lia.
Qed.

Lemma fill_record_chunk_fits (n : nat) (record : Buffer) (offset : nat)
    (chunk : Buffer) (rest : list Buffer) :
  offset < n -> length chunk <= n - offset ->
  fill_record n record offset (chunk :: rest)
  = fill_record n (copy chunk record offset 0 (length chunk))
      (offset + length chunk) rest.
Proof.
  intros O L.
  rewrite (fill_record_equation_1 n record offset (chunk :: rest)).
  destruct (lt_dec offset n) as [?|?]; [|lia].
  rewrite fill_record_clause_1_equation_1.
  rewrite fill_record_clause_1_clause_2_equation_2.
  destruct (le_dec (length chunk) (n - offset)) as [?|?]; [|lia].
  apply fill_record_clause_1_clause_2_clause_2_equation_1.
Qed.

Lemma fill_record_chunk_exceeds (n : nat) (record : Buffer) (offset : nat)
    (chunk : Buffer) (rest : list Buffer) :
  offset < n -> n - offset < length chunk ->
  fill_record n record offset (chunk :: rest)
  = Filled (copy chunk record offset 0 (n - offset))
      (slice chunk (n - offset) :: rest).
Proof.
  intros O L.
  rewrite (fill_record_equation_1 n record offset (chunk :: rest)).
  destruct (lt_dec offset n) as [?|?]; [|lia].
  rewrite fill_record_clause_1_equation_1.
  rewrite fill_record_clause_1_clause_2_equation_2.
  destruct (le_dec (length chunk) (n - offset)) as [?|?]; [lia|].
  rewrite fill_record_clause_1_clause_2_clause_2_equation_2.
  rewrite fill_record_equation_1.
  destruct (lt_dec (offset + (n - offset)) n) as [?|?]; [lia|].
  apply fill_record_clause_1_equation_2.
Qed.

Lemma merge_front_step (first second : Buffer) (rest : list Buffer) :
  length first < 8 ->
  merge_front (first :: second :: rest)
  = merge_front (Buffer_concat [first; second] :: rest).
Proof.
  intros L. rewrite merge_front_equation_3.
  destruct (lt_dec (length first) 8) as [?|?]; [|lia].
  apply merge_front_clause_1_equation_1.
Qed.

(** ** Calls in sequence *)

Lemma destroy_eq (this : FastCGIStream) :
  destroy this
  = (Normal tt,
     set_is_sending false (set_is_ending false (set_is_dead true this)),
     to_source has_destroy source_destroy this).
Proof.
  unfold destroy, to_source. run_M.
  destruct this as [r w e s d p q [src|] h]; simpl; [|reflexivity].
  destruct (has_destroy src); reflexivity.
Qed.

Lemma error_eq (er : exn) (this : FastCGIStream) :
  error er this
  = (Normal false, set_writable false (set_readable false this),
     [on_error er]).
Proof. reflexivity. Qed.

Lemma pipe_eq (src : Producer) (this : FastCGIStream) :
  pipe src this
  = match pipe_handler this with
    | first_pipe =>
        (Normal tt, set_pipe_handler later_pipe (set_source (Some src) this),
         [])
    | later_pipe =>
        (Normal tt, set_writable false (set_readable false this),
         [on_error (Error_source "Already have a pipe source" (source this))])
    end.
Proof. unfold pipe. run_M. now destruct (pipe_handler this). Qed.

Section CallFacts.
Variable uninit : nat -> byte.

Lemma perform_effect (c : call) (this : FastCGIStream) :
  exists fs pending r,
    perform uninit c this
    = (r, fst (effect c fs pending this), snd (effect c fs pending this)).
Proof.
  destruct c as [data|data| | | | | |er|src]; unfold perform.
  - destruct (write_eq uninit data this) as [fs [pending [_ [_ [_ W]]]]].
    exists fs, pending. eexists. run_M. simpl in W. rewrite W. simpl.
    now rewrite app_nil_r.
  - destruct (end_eq uninit data this) as [fs [pending [_ [_ [_ W]]]]].
    exists fs, pending. eexists. simpl in W. rewrite W. reflexivity.
  - exists [], []. eexists. now rewrite pause_eq.
  - exists [], []. eexists. now rewrite resume_eq.
  - exists [], []. eexists. now rewrite destroy_eq.
  - exists [], []. eexists. reflexivity.
  - exists [], []. eexists. reflexivity.
  - exists [], []. eexists. reflexivity.
  - exists [], []. eexists. rewrite pipe_eq. simpl.
    destruct (pipe_handler this); reflexivity.
Qed.

(** A property of the instance that every allowed call keeps, while it
    signals only what [Q] admits, holds after any sequence of such calls. *)
Lemma run_invariant (P : FastCGIStream -> Prop) (Q : signal -> Prop)
    (allowed : call -> Prop) :
  (forall c fs pending this,
     allowed c -> P this ->
     P (fst (effect c fs pending this))
     /\ Forall Q (snd (effect c fs pending this))) ->
  forall calls this,
    Forall allowed calls -> P this ->
    P (fst (run uninit calls this)) /\ Forall Q (snd (run uninit calls this)).
Proof.
  intros step calls. induction calls as [|c rest IH]; intros this A H.
  - split; [exact H|constructor].
  - inversion A as [|? ? Ac Ar]; subst.
    destruct (perform_effect c this) as [fs [pending [r E]]].
    destruct (step c fs pending this Ac H) as [H1 Q1].
    simpl. rewrite E.
    destruct (IH _ Ar H1) as [H2 Q2].
    destruct (run uninit rest _) as [this2 out2]. simpl in *.
    split; [exact H2|]. apply Forall_app. auto.
Qed.
End CallFacts.

Ltac effect_cases this c :=
  destruct this as [r w e s d p q [src|] h];
  destruct c as [data|data| | | | | |er|src'];
  cbv [effect fst snd to_source] in *; setters;
  repeat match goal with
         | |- context [if ?b then _ else _] => destruct b; simpl
         | |- context [match ?b with first_pipe => _ | later_pipe => _ end] =>
             destruct b; simpl
         end.

Lemma closed_flags_step (c : call) (fs pending : list Buffer)
    (this : FastCGIStream) :
  readable this = false /\ writable this = false ->
  readable (fst (effect c fs pending this)) = false
  /\ writable (fst (effect c fs pending this)) = false.
Proof.
  intros [R W]. effect_cases this c; subst; auto.
Qed.

Lemma paused_step (c : call) (fs pending : list Buffer)
    (this : FastCGIStream) :
  c <> call_resume -> is_sending this = false ->
  is_sending (fst (effect c fs pending this)) = false
  /\ Forall (fun s => is_delivery s = false) (snd (effect c fs pending this)).
Proof.
  intros A S. effect_cases this c; subst; try congruence;
    split; auto; repeat constructor.
Qed.

Lemma bound_step (bound : Producer) (c : call) (fs pending : list Buffer)
    (this : FastCGIStream) :
  source this = Some bound /\ pipe_handler this = later_pipe ->
  source (fst (effect c fs pending this)) = Some bound
  /\ pipe_handler (fst (effect c fs pending this)) = later_pipe.
Proof.
  intros [B H]. effect_cases this c; subst; try discriminate; auto.
Qed.

Lemma count_end_app (out1 out2 : list signal) :
  count_end (out1 ++ out2) = count_end out1 + count_end out2.
Proof. unfold count_end. now rewrite filter_app, length_app. Qed.

Lemma count_end_cons (s : signal) (out : list signal) :
  count_end (s :: out)
  = match s with on_end => 1 | _ => 0 end + count_end out.
Proof. now destruct s. Qed.

Lemma count_end_data (rs : list Buffer) : count_end (map on_data rs) = 0.
Proof. induction rs as [|r rs IH]; [reflexivity|exact IH]. Qed.

Lemma end_budget_step (c : call) (fs pending : list Buffer)
    (this : FastCGIStream) :
  count_end (snd (effect c fs pending this))
  + Nat.b2n (is_ending (fst (effect c fs pending this)))
  <= count_call_end [c] + Nat.b2n (is_ending this).
Proof.
  destruct this as [r w e s d p q [src|] h];
    destruct c as [data|data| | | | | |er|src'];
    cbv [effect fst snd to_source]; setters;
    repeat match goal with
           | |- context [if ?b then _ else _] => destruct b; simpl
           | |- context [match ?b with first_pipe => _ | later_pipe => _ end] =>
               destruct b; simpl
           end;
    rewrite ?count_end_cons, ?count_end_app, ?count_end_data; simpl; lia.
Qed.

Section RunFacts.
Variable uninit : nat -> byte.

Lemma run_closed_flags (calls : list call) (this : FastCGIStream) :
  readable this = false -> writable this = false ->
  readable (fst (run uninit calls this)) = false
  /\ writable (fst (run uninit calls this)) = false.
Proof.
  intros R W.
  apply (run_invariant uninit
           (fun t => readable t = false /\ writable t = false)
           (fun _ => True) (fun _ => True)); auto.
  - intros c fs pending t _ H. split; [now apply closed_flags_step|].
    apply Forall_forall. auto.
  - apply Forall_forall. auto.
Qed.

Lemma run_paused (calls : list call) (this : FastCGIStream) :
  Forall (fun c => c <> call_resume) calls -> is_sending this = false ->
  is_sending (fst (run uninit calls this)) = false
  /\ Forall (fun s => is_delivery s = false) (snd (run uninit calls this)).
Proof.
  intros A S.
  apply (run_invariant uninit (fun t => is_sending t = false)
           (fun s => is_delivery s = false) (fun c => c <> call_resume));
    auto.
  intros c fs pending t Ac H. now apply paused_step.
Qed.

Lemma run_bound (bound : Producer) (calls : list call)
    (this : FastCGIStream) :
  source this = Some bound -> pipe_handler this = later_pipe ->
  source (fst (run uninit calls this)) = Some bound
  /\ pipe_handler (fst (run uninit calls this)) = later_pipe.
Proof.
  intros B H.
  apply (run_invariant uninit
           (fun t => source t = Some bound /\ pipe_handler t = later_pipe)
           (fun _ => True) (fun _ => True)); auto.
  - intros c fs pending t _ I. split; [now apply bound_step|].
    apply Forall_forall. auto.
  - apply Forall_forall. auto.
Qed.
(** Each [end] signal is paid for by a call of [end()], or by [is_ending]
    being set at the start. *)
Lemma run_end_budget (calls : list call) (this : FastCGIStream) :
  count_end (snd (run uninit calls this))
  + Nat.b2n (is_ending (fst (run uninit calls this)))
  <= count_call_end calls + Nat.b2n (is_ending this).
Proof.
  revert this. induction calls as [|c rest IH]; intros this.
  - simpl. lia.
  - destruct (perform_effect uninit c this) as [fs [pending [r E]]].
    pose proof (end_budget_step c fs pending this) as S.
    simpl. rewrite E.
    specialize (IH (fst (effect c fs pending this))).
    destruct (run uninit rest _) as [this2 out2]. simpl in *.
    rewrite count_end_app.
    change (count_call_end (c :: rest))
      with (length (filter (fun c => match c with call_end _ => true | _ => false end) ([c] ++ rest))).
    rewrite filter_app, length_app. fold (count_call_end [c]) (count_call_end rest).
    lia.
Qed.

End RunFacts.

Lemma no_resume_Forall (calls : list call) :
  forallb (fun c => negb (is_resume c)) calls = true ->
  Forall (fun c => c <> call_resume) calls.
Proof.
  intros H. apply Forall_forall. intros c I ->.
  rewrite forallb_forall in H. specialize (H _ I). discriminate.
Qed.

(** [is_record] in the words of the record layout: an 8-byte header, then as
    many bytes of content as its [body_len] and as many bytes of padding as
    its [pad_len]. *)
Lemma is_record_layout (bytes : Buffer) :
  is_record bytes = true <->
  exists head content padding header,
    bytes = head ++ content ++ padding
    /\ length head = 8
    /\ get_header head = Some header
    /\ length content = body_len header
    /\ length padding = pad_len header.
Proof.
  split.
  - intros H. destruct (is_record_header bytes H) as [header [G [L L8]]].
    exists (firstn 8 bytes), (firstn (body_len header) (skipn 8 bytes)),
      (skipn (body_len header) (skipn 8 bytes)), header.
    assert (L8' : length (firstn 8 bytes) = 8) by (rewrite length_firstn; lia).
    split; [now rewrite !firstn_skipn|]. split; [exact L8'|]. split.
    + rewrite <- (firstn_skipn 8 bytes), get_header_app in G by lia. exact G.
    + split.
      * rewrite length_firstn, length_skipn. lia.
      * rewrite !length_skipn. lia.
  - intros [head [content [padding [header [-> [L [G [Lc Lp]]]]]]]].
    unfold is_record. rewrite get_header_app, G by lia.
    rewrite !length_app. apply Nat.eqb_eq. lia.
Qed.

(** Every content length below 65536 and padding length below 256 is the
    length pair of some header. *)
Lemma header_for_lengths (content_length padding_length : nat) :
  content_length < 256 * 256 -> padding_length < 256 ->
  exists head header,
    length head = 8 /\ get_header head = Some header
    /\ body_len header = content_length /\ pad_len header = padding_length.
Proof.
  intros Hc Hp.
  assert (B : forall n, n < 256 -> exists b, Byte.to_nat b = n).
  { intros n Hn. destruct (Byte.of_nat n) as [b|] eqn:E.
    - exists b. now apply Byte.to_of_nat.
    - apply Byte.of_nat_None_iff in E. lia. }
  destruct (B (content_length / 256)) as [hi Hhi].
  { apply Nat.Div0.div_lt_upper_bound. lia. }
  destruct (B (content_length mod 256)) as [lo Hlo].
  { apply Nat.mod_upper_bound. lia. }
  destruct (B padding_length Hp) as [pad Hpad].
  exists ["001"; "001"; "000"; "001"; hi; lo; pad; "000"]%byte.
  eexists. split; [reflexivity|]. split; [reflexivity|].
  cbn [body_len pad_len]. split; [|exact Hpad].
  rewrite Hhi, Hlo. symmetry. rewrite Nat.mul_comm. apply Nat.div_mod_eq.
Qed.

(** ** Writes followed by [end] *)

Section EndFacts.

Variable uninit : nat -> byte.

Lemma run_app (calls1 calls2 : list call) (this : FastCGIStream) :
  run uninit (calls1 ++ calls2) this
  = let '(this1, out1) := run uninit calls1 this in
    let '(this2, out2) := run uninit calls2 this1 in
    (this2, out1 ++ out2).
Proof.
  revert this. induction calls1 as [|c rest IH]; intros this; simpl.
  - now destruct (run uninit calls2 this).
  - destruct (perform uninit c this) as [[r this1] out1].
    rewrite IH.
    destruct (run uninit rest this1) as [this2 out2].
    destruct (run uninit calls2 this2) as [this3 out3].
    now rewrite app_assoc.
Qed.

Lemma run_writes (chunks : list Buffer) (this this' : FastCGIStream)
    (out : list signal) :
  write_all uninit chunks this = (Normal tt, this', out) ->
  run uninit (writes chunks) this = (this', out).
Proof.
  revert this out. induction chunks as [|chunk rest IH]; intros this out W.
  - injection W as <- <-. reflexivity.
  - rewrite write_all_cons in W. simpl. unfold perform. run_M.
    destruct (write_eq uninit (Some chunk) this) as [fs [p [_ [_ [_ E]]]]].
    simpl in E. rewrite E in *.
    destruct (write_all uninit rest _) as [[r this2] out2] eqn:R.
    injection W as -> <- <-.
    rewrite (IH _ _ R). now rewrite app_nil_r.
Qed.

(** Whole records are written, in any chunks, and then [end()] is called:
    every record is signalled, in order, before the one [end]; with a
    [pause()] before and a [resume()] after, nothing is signalled until the
    [resume()]. *)
Lemma end_after_records (rs chunks : list Buffer) :
  all_records rs -> concat chunks = concat rs ->
  snd (run uninit (writes chunks ++ [call_end None]) FastCGIStream_new)
  = map on_data rs ++ [on_end]
  /\ snd (run uninit (call_pause :: writes chunks ++ [call_end None])
            FastCGIStream_new)
     = []
  /\ snd (run uninit
            (call_pause :: writes chunks ++ [call_end None; call_resume])
            FastCGIStream_new)
     = map on_data rs ++ [on_end].
Proof.
  intros R C.
  assert (E : forall this : FastCGIStream,
            concat (pending_data this) = [] ->
            exists r p,
              perform uninit (call_end None) this
              = (r,
                 after_drain
                   (set_pending_data p
                      (set_writable false (set_is_ending true this))),
                 drain_signals
                   (set_pending_data p
                      (set_writable false (set_is_ending true this))))).
  { intros this P.
    destruct (end_eq uninit None this) as [fs [p [F [Cp [N W]]]]].
    assert (Cp' : concat [] = concat fs ++ concat p).
    { rewrite <- Cp, P. reflexivity. }
    destruct (whole_records_found [] fs p (Forall_nil _) F N Cp') as [-> Z].
    eexists _, p. unfold perform. simpl in W. rewrite W.
    destruct this; setters. now rewrite app_nil_r. }
  assert (W : exists pending,
            concat pending = []
            /\ run uninit (writes chunks) (set_is_sending false FastCGIStream_new)
               = (set_records rs
                    (set_pending_data pending
                       (set_is_sending false FastCGIStream_new)), [])).
  { destruct (write_all_eq uninit chunks
                (set_is_sending false FastCGIStream_new))
      as [fs [pending [F [C' [N W]]]]]; try reflexivity; try discriminate.
    simpl in C'. rewrite C in C'.
    destruct (whole_records_found rs fs pending R F N C') as [-> Z].
    exists pending. split; [exact Z|]. now apply run_writes. }
  split; [|split].
  - destruct (write_all_fresh uninit rs chunks R C) as [pending [P Wf]].
    rewrite run_app, (run_writes _ _ _ _ Wf).
    destruct (E (set_pending_data pending FastCGIStream_new) P) as [r [p Ep]].
    simpl in *. rewrite Ep. setters. reflexivity.
  - destruct W as [pending [P W]].
    change (call_pause :: writes chunks ++ [call_end None])
      with ([call_pause] ++ writes chunks ++ [call_end None]).
    rewrite run_app. change (run uninit [call_pause] FastCGIStream_new)
      with (set_is_sending false FastCGIStream_new, @nil signal).
    cbv iota beta. rewrite run_app, W.
    destruct (E (set_records rs
                   (set_pending_data pending
                      (set_is_sending false FastCGIStream_new))) P)
      as [r [p Ep]].
    simpl in *. rewrite Ep. reflexivity.
  - destruct W as [pending [P W]].
    change (call_pause :: writes chunks ++ [call_end None; call_resume])
      with ([call_pause] ++ writes chunks ++ [call_end None; call_resume]).
    rewrite run_app. change (run uninit [call_pause] FastCGIStream_new)
      with (set_is_sending false FastCGIStream_new, @nil signal).
    cbv iota beta. rewrite run_app, W.
    destruct (E (set_records rs
                   (set_pending_data pending
                      (set_is_sending false FastCGIStream_new))) P)
      as [r [p Ep]].
    simpl in *. rewrite Ep. unfold perform. rewrite resume_eq.
    setters. unfold to_source. simpl. rewrite ?app_nil_r. reflexivity.
Qed.
End EndFacts.

(** ** The call stack *)

(** The whole records that a byte stream begins with begin every list of
    whole records that it begins with and that leaves no whole record. *)
Lemma frames_prefix (fs rs : list Buffer) (x tail : Buffer) :
  all_records fs -> all_records rs -> holds_record tail = false ->
  concat fs ++ x = concat rs ++ tail ->
  exists rs', rs = fs ++ rs' /\ x = concat rs' ++ tail.
Proof.
  intros F. revert rs. induction F as [|f fs V F IH]; intros rs R N E.
  - exists rs. auto.
  - destruct R as [|r rs V' R].
    + simpl in E. rewrite <- app_assoc in E. subst tail.
      rewrite is_record_holds in N by assumption. discriminate.
    + simpl in E. rewrite <- !app_assoc in E.
      destruct (record_prefix_unique _ _ _ _ V V' E) as [-> E'].
      destruct (IH rs R N E') as [rs' [-> ->]]. exists rs'. auto.
Qed.

Section StackFacts.
Variable uninit : nat -> byte.

(** [build_record] on a stack of depth [stack]: either the whole records
    that the pending bytes begin with, fewer than [stack], are queued and
    the queue is drained, or [stack] of them are queued and the next call
    finds no stack. *)
Lemma build_record_on_eq (stack : nat) (this : FastCGIStream) :
  exists fs pending,
    all_records fs
    /\ concat (pending_data this) = concat fs ++ concat pending
    /\ let queued :=
         set_records (records this ++ fs) (set_pending_data pending this) in
       (length fs < stack
        /\ holds_record (concat pending) = false
        /\ build_record_on uninit stack this
           = (Normal tt, after_drain queued, drain_signals queued))
       \/ (length fs = stack
           /\ build_record_on uninit stack this
              = (Throw RangeError, queued, [])).
Proof.
  revert this. induction stack as [|deeper IH]; intros this.
  - exists [], (pending_data this). split; [constructor|].
    split; [reflexivity|]. right. split; [reflexivity|].
    simpl. rewrite app_nil_r. now destruct this.
  - cbn [build_record_on].
    destruct (build_pass_cases uninit (pending_data this))
      as [[N E]|[r [p [E [V C]]]]]; rewrite E.
    + exists [], (merge_front (pending_data this)). split; [constructor|].
      split; [now rewrite merge_front_concat|]. left.
      split; [simpl; lia|]. split; [now rewrite merge_front_concat|].
      rewrite emit_records_eq. simpl. rewrite app_nil_r.
      now destruct this.
    + destruct (IH (set_records (records this ++ [r])
                      (set_pending_data p this)))
        as [fs [pending [F [C' B]]]].
      exists (r :: fs), pending. split; [now constructor|].
      split; [rewrite C; simpl in *; rewrite C'; now rewrite app_assoc|].
      cbv zeta in *.
      assert (Q : set_records
                    (records (set_records (records this ++ [r])
                                (set_pending_data p this)) ++ fs)
                    (set_pending_data pending
                       (set_records (records this ++ [r])
                          (set_pending_data p this)))
                  = set_records (records this ++ r :: fs)
                      (set_pending_data pending this)).
      { destruct this; simpl. now rewrite <- app_assoc. }
      rewrite Q in B.
      destruct B as [[L [N B]]|[L B]].
      * left. split; [simpl; lia|]. split; [exact N|exact B].
      * right. split; [simpl; lia|exact B].
Qed.

(** Which of the two it is: the number of whole records that the pending
    bytes begin with decides. *)
Lemma build_record_on_count (stack : nat) (rs : list Buffer) (tail : Buffer)
    (this : FastCGIStream) :
  all_records rs -> holds_record tail = false ->
  concat (pending_data this) = concat rs ++ tail ->
  (length rs < stack ->
   exists pending,
     concat pending = tail
     /\ let queued :=
          set_records (records this ++ rs) (set_pending_data pending this) in
        build_record_on uninit stack this
        = (Normal tt, after_drain queued, drain_signals queued))
  /\ (stack <= length rs ->
      exists pending,
        concat pending = concat (skipn stack rs) ++ tail
        /\ build_record_on uninit stack this
           = (Throw RangeError,
              set_records (records this ++ firstn stack rs)
                (set_pending_data pending this), [])).
Proof.
  intros R N C.
  destruct (build_record_on_eq stack this) as [fs [pending [F [C' B]]]].
  cbv zeta in B. rewrite C in C'. symmetry in C'.
  destruct B as [[L [N' B]]|[L B]].
  - destruct (frames_unique fs rs (concat pending) tail F R N' N C')
      as [-> E].
    split; [|lia]. intros _. exists pending. split; [exact E|exact B].
  - destruct (frames_prefix fs rs (concat pending) tail F R N C')
      as [rs' [-> E]].
    split; [rewrite length_app; lia|]. intros _.
    exists pending. subst stack.
    rewrite firstn_app, Nat.sub_diag, firstn_O, app_nil_r, firstn_all.
    rewrite skipn_app, Nat.sub_diag, skipn_all. simpl.
    split; [exact E|exact B].
Qed.

(** While the stack holds, the method is [build_record]. *)
Lemma build_record_on_held (stack : nat) (this : FastCGIStream) :
  is_overflow (fst (fst (build_record_on uninit stack this))) = false ->
  build_record_on uninit stack this = build_record uninit this.
Proof.
  revert this. induction stack as [|deeper IH]; intros this H.
  - discriminate.
  - rewrite build_record_body. cbn [build_record_on] in *.
    destruct (build_pass uninit (pending_data this)); auto.
Qed.

Lemma write_on_unfold (stack : nat) (data : option Buffer)
    (this : FastCGIStream) :
  write_on uninit stack data this
  = match build_record_on uninit stack (pushed data this) with
    | (Normal _, this1, out) => (Normal (negb (is_ending this1)), this1, out)
    | (Throw e, this1, out) => (Throw e, this1, out)
    end.
Proof.
  unfold write_on. run_M.
  destruct data as [chunk|]; simpl;
    destruct (build_record_on uninit stack _) as [[[[]|e] this1] out];
    rewrite ?app_nil_r; reflexivity.
Qed.

Lemma end_on_unfold (stack : nat) (data : option Buffer)
    (this : FastCGIStream) :
  end_on uninit stack data this
  = match write_on uninit stack data
            (set_writable false (set_is_ending true this)) with
    | (Normal _, this1, out) =>
        (if negb (length (pending_data this1) =? 0)
         then Throw (ReferenceError "self") else Normal tt,
         this1, out)
    | (Throw e, this1, out) => (Throw e, this1, out)
    end.
Proof.
  unfold end_on. run_M.
  destruct (write_on uninit stack data _) as [[[b|e] this1] out];
    [|reflexivity].
  destruct (negb _); now rewrite app_nil_r.
Qed.

Lemma write_on_held (stack : nat) (data : option Buffer)
    (this : FastCGIStream) :
  is_overflow (fst (fst (write_on uninit stack data this))) = false ->
  write_on uninit stack data this = write uninit data this.
Proof.
  rewrite write_on_unfold, write_unfold. intros H.
  rewrite build_record_on_held; [reflexivity|].
  destruct (build_record_on uninit stack (pushed data this))
    as [[[u|e] this1] out]; [reflexivity|exact H].
Qed.

Lemma end_on_held (stack : nat) (data : option Buffer)
    (this : FastCGIStream) :
  is_overflow (fst (fst (end_on uninit stack data this))) = false ->
  end_on uninit stack data this = end_ uninit data this.
Proof.
  rewrite end_on_unfold, end_unfold. intros H.
  rewrite write_on_held; [reflexivity|].
  destruct (write_on uninit stack data _) as [[[u|e] this1] out];
    [reflexivity|exact H].
Qed.

Lemma perform_on_held (stack : nat) (c : call) (this : FastCGIStream) :
  is_overflow (fst (fst (perform_on uninit stack c this))) = false ->
  perform_on uninit stack c this = perform uninit c this.
Proof.
  destruct c; try reflexivity; unfold perform_on, perform.
  - run_M. intros H. rewrite write_on_held; [reflexivity|].
    destruct (write_on uninit stack data this) as [[[u|e] this1] out];
      [reflexivity|exact H].
  - apply end_on_held.
Qed.

(** While the stack holds every call, the calls do what they do on a stack
    without bound. *)
Lemma run_on_held (stack : nat) (calls : list call) (this : FastCGIStream) :
  fst (fst (run_on uninit stack calls this)) = true ->
  run uninit calls this
  = (snd (fst (run_on uninit stack calls this)),
     snd (run_on uninit stack calls this)).
Proof.
  revert this. induction calls as [|c rest IH]; intros this H;
    [reflexivity|].
  cbn [run_on run] in *.
  destruct (perform_on uninit stack c this) as [[r this1] out1] eqn:P.
  specialize (IH this1).
  destruct (run_on uninit stack rest this1) as [[held this2] out2].
  cbn [fst snd] in *. apply andb_true_iff in H. destruct H as [H1 H2].
  apply negb_true_iff in H1.
  rewrite <- (perform_on_held stack c this), P by (now rewrite P).
  now rewrite (IH H2).
Qed.

(** [write] on a stack of depth [stack], in closed form. *)
Lemma write_on_eq (stack : nat) (data : option Buffer)
    (this : FastCGIStream) :
  exists fs pending,
    all_records fs
    /\ concat (pending_data this) ++ bytes_of data
       = concat fs ++ concat pending
    /\ let queued :=
         set_records (records this ++ fs) (set_pending_data pending this) in
       (length fs < stack
        /\ holds_record (concat pending) = false
        /\ write_on uninit stack data this
           = (Normal (negb (is_ending (after_drain queued))),
              after_drain queued, drain_signals queued))
       \/ (length fs = stack
           /\ write_on uninit stack data this
              = (Throw RangeError, queued, [])).
Proof.
  destruct (build_record_on_eq stack (pushed data this))
    as [fs [pending [F [C B]]]].
  exists fs, pending. split; [exact F|]. split.
  { rewrite <- C. destruct data; simpl.
    - rewrite concat_app. simpl. now rewrite app_nil_r.
    - now rewrite app_nil_r. }
  cbv zeta in *. rewrite write_on_unfold.
  assert (Q : set_records (records (pushed data this) ++ fs)
                (set_pending_data pending (pushed data this))
              = set_records (records this ++ fs)
                  (set_pending_data pending this))
    by (destruct data, this; reflexivity).
  rewrite Q in B.
  destruct B as [[L [N B]]|[L B]]; rewrite B.
  - left. auto.
  - right. auto.
Qed.

(** [end] on a stack of depth [stack], in closed form. *)
Lemma end_on_eq (stack : nat) (data : option Buffer)
    (this : FastCGIStream) :
  exists fs pending,
    all_records fs
    /\ concat (pending_data this) ++ bytes_of data
       = concat fs ++ concat pending
    /\ let queued :=
         set_records (records this ++ fs)
           (set_pending_data pending
              (set_writable false (set_is_ending true this))) in
       (length fs < stack
        /\ holds_record (concat pending) = false
        /\ end_on uninit stack data this
           = (match pending with
              | [] => Normal tt
              | _ :: _ => Throw (ReferenceError "self")
              end,
              after_drain queued, drain_signals queued))
       \/ (length fs = stack
           /\ end_on uninit stack data this
              = (Throw RangeError, queued, [])).
Proof.
  destruct (write_on_eq stack data
              (set_writable false (set_is_ending true this)))
    as [fs [pending [F [C B]]]].
  exists fs, pending. split; [exact F|]. split.
  { rewrite <- C. now destruct this. }
  cbv zeta in *. rewrite end_on_unfold.
  destruct B as [[L [N B]]|[L B]]; rewrite B.
  - left. split; [exact L|]. split; [exact N|].
    destruct this as [r w e s d p q src h]. setters.
    destruct s, pending; reflexivity.
  - right. auto.
Qed.

(** A call on a stack of depth [stack]: its effect, or the instance
    stranded with a [RangeError]. *)
Lemma perform_on_cases (stack : nat) (c : call) (this : FastCGIStream) :
  exists fs pending r,
    all_records fs
    /\ ((is_overflow r = false
         /\ perform_on uninit stack c this
            = (r, fst (effect c fs pending this),
               snd (effect c fs pending this)))
        \/ perform_on uninit stack c this
           = (Throw RangeError, stranded c fs pending this, [])).
Proof.
  assert (K : (exists r,
                 is_overflow r = false
                 /\ perform_on uninit stack c this
                    = (r, fst (effect c [] [] this),
                       snd (effect c [] [] this))) ->
              exists fs pending r,
                all_records fs
                /\ ((is_overflow r = false
                     /\ perform_on uninit stack c this
                        = (r, fst (effect c fs pending this),
                           snd (effect c fs pending this)))
                    \/ perform_on uninit stack c this
                       = (Throw RangeError, stranded c fs pending this, []))).
  { intros [r [O E]]. exists [], [], r. split; [constructor|]. left. auto. }
  destruct c as [data|data| | | | | |er|src].
  - destruct (write_on_eq stack data this) as [fs [pending [F [_ B]]]].
    cbv zeta in B. exists fs, pending.
    destruct B as [[_ [_ B]]|[_ B]].
    + exists (Normal tt). split; [exact F|]. left. split; [reflexivity|].
      unfold perform_on. run_M. rewrite B. simpl. now rewrite app_nil_r.
    + exists (Throw RangeError). split; [exact F|]. right.
      unfold perform_on. run_M. now rewrite B.
  - destruct (end_on_eq stack data this) as [fs [pending [F [_ B]]]].
    cbv zeta in B. exists fs, pending.
    destruct B as [[_ [_ B]]|[_ B]].
    + eexists. split; [exact F|]. left. split; [|exact B].
      now destruct pending.
    + exists (Throw RangeError). split; [exact F|]. right. exact B.
  - apply K. eexists. split; [|unfold perform_on; now rewrite pause_eq].
    reflexivity.
  - apply K. eexists. split; [|unfold perform_on; now rewrite resume_eq].
    reflexivity.
  - apply K. eexists. split; [|unfold perform_on; now rewrite destroy_eq].
    reflexivity.
  - apply K. eexists. split; [|reflexivity]. reflexivity.
  - apply K. eexists. split; [|reflexivity]. reflexivity.
  - apply K. eexists. split; [|reflexivity]. reflexivity.
  - apply K. exists (Normal tt). split; [reflexivity|].
    unfold perform_on. rewrite pipe_eq. simpl.
    destruct (pipe_handler this); reflexivity.
Qed.

(** A property of the instance that every call keeps, on a stack that holds
    the call and on one that does not, while it signals only what [Q]
    admits, holds after any calls on a stack of any depth. *)
Lemma run_on_invariant (P : FastCGIStream -> Prop) (Q : signal -> Prop) :
  (forall c fs pending this,
     all_records fs -> P this ->
     P (fst (effect c fs pending this))
     /\ Forall Q (snd (effect c fs pending this))
     /\ P (stranded c fs pending this)) ->
  forall stack calls this,
    P this ->
    P (snd (fst (run_on uninit stack calls this)))
    /\ Forall Q (snd (run_on uninit stack calls this)).
Proof.
  intros step stack calls.
  induction calls as [|c rest IH]; intros this H.
  - split; [exact H|constructor].
  - destruct (perform_on_cases stack c this) as [fs [pending [r [F E]]]].
    destruct (step c fs pending this F H) as [H1 [Q1 H2]].
    cbn [run_on].
    destruct E as [[_ E]|E]; rewrite E.
    + destruct (IH _ H1) as [H3 Q3].
      destruct (run_on uninit stack rest _) as [[held this2] out2].
      cbn [fst snd] in *. split; [exact H3|]. apply Forall_app. auto.
    + destruct (IH _ H2) as [H3 Q3].
      destruct (run_on uninit stack rest _) as [[held this2] out2].
      cbn [fst snd] in *. split; [exact H3|exact Q3].
Qed.

End StackFacts.

Section StackCounts.
Variable uninit : nat -> byte.

(** Which of the two [write] does: the number of whole records that the
    pending bytes and the data begin with decides. *)
Lemma write_on_count (stack : nat) (data : option Buffer)
    (rs : list Buffer) (tail : Buffer) (this : FastCGIStream) :
  all_records rs -> holds_record tail = false ->
  concat (pending_data this) ++ bytes_of data = concat rs ++ tail ->
  (length rs < stack ->
   exists pending,
     concat pending = tail
     /\ let queued :=
          set_records (records this ++ rs) (set_pending_data pending this) in
        write_on uninit stack data this
        = (Normal (negb (is_ending (after_drain queued))),
           after_drain queued, drain_signals queued))
  /\ (stack <= length rs ->
      exists pending,
        concat pending = concat (skipn stack rs) ++ tail
        /\ write_on uninit stack data this
           = (Throw RangeError,
              set_records (records this ++ firstn stack rs)
                (set_pending_data pending this), [])).
Proof.
  intros R N C.
  destruct (write_on_eq uninit stack data this) as [fs [pending [F [C' B]]]].
  cbv zeta in B. rewrite C in C'. symmetry in C'.
  destruct B as [[L [N' B]]|[L B]].
  - destruct (frames_unique fs rs (concat pending) tail F R N' N C')
      as [-> E].
    split; [|lia]. intros _. exists pending. split; [exact E|exact B].
  - destruct (frames_prefix fs rs (concat pending) tail F R N C')
      as [rs' [-> E]].
    split; [rewrite length_app; lia|]. intros _.
    exists pending. subst stack.
    rewrite firstn_app, Nat.sub_diag, firstn_O, app_nil_r, firstn_all.
    rewrite skipn_app, Nat.sub_diag, skipn_all. simpl.
    split; [exact E|exact B].
Qed.

(** Chunks that hold fewer whole records than the stack holds calls are
    written as on a stack without bound. *)
Lemma write_all_on_enough (stack : nat) (chunks : list Buffer)
    (rs : list Buffer) (tail : Buffer) (this : FastCGIStream) :
  all_records rs -> holds_record tail = false ->
  concat (pending_data this) ++ concat chunks = concat rs ++ tail ->
  length rs < stack ->
  write_all_on uninit stack chunks this = write_all uninit chunks this.
Proof.
  revert rs this. induction chunks as [|chunk rest IH]; intros rs this R N C L;
    [reflexivity|].
  destruct (write_on_eq uninit stack (Some chunk) this)
    as [fs [pending [F [C' B]]]].
  cbv zeta in B. cbn [bytes_of] in C'.
  assert (E : concat fs ++ (concat pending ++ concat rest)
              = concat rs ++ tail).
  { rewrite app_assoc, <- C', <- app_assoc. exact C. }
  destruct (frames_prefix fs rs _ tail F R N E) as [rs' [-> E']].
  rewrite length_app in L.
  destruct B as [[_ [_ B]]|[L' _]]; [|lia].
  assert (H : write_on uninit stack (Some chunk) this
              = write uninit (Some chunk) this).
  { apply write_on_held. now rewrite B. }
  rewrite write_all_cons. cbn [write_all_on]. run_M.
  rewrite <- H, B.
  rewrite (IH rs'); [reflexivity| | | |lia].
  - apply Forall_app in R. tauto.
  - exact N.
  - rewrite <- E'. f_equal.
    destruct this as [r w e s d p q src h]. setters. now destruct s, e.
Qed.

(** A stack that is deep enough holds every call: [build_record] is the
    method on such a stack. *)
Lemma build_record_on_deep (this : FastCGIStream) :
  exists depth,
    forall stack,
      depth < stack ->
      build_record_on uninit stack this = build_record uninit this.
Proof.
  destruct (build_record_eq uninit this) as [fs [pending [F [C [N _]]]]].
  exists (length fs). intros stack L. apply build_record_on_held.
  destruct (build_record_on_count uninit stack fs (concat pending) this
              F N C) as [Fits _].
  destruct (Fits L) as [p [_ W]]. cbv zeta in W. now rewrite W.
Qed.

End StackCounts.

(** The two flags that [error] clears stay cleared through any call, on a
    stack that holds it or not. *)
Lemma closed_flags_stranded (c : call) (fs pending : list Buffer)
    (this : FastCGIStream) :
  readable this = false /\ writable this = false ->
  readable (stranded c fs pending this) = false
  /\ writable (stranded c fs pending this) = false.
Proof. intros [R W]. destruct this, c; simpl in *; auto. Qed.

Lemma whole_data (rs : list Buffer) :
  all_records rs -> Forall delivers_whole (map on_data rs).
Proof.
  intros R. apply Forall_forall. intros s I. apply in_map_iff in I.
  destruct I as [r [<- I]]. unfold all_records in R.
  rewrite Forall_forall in R. now apply R.
Qed.

Lemma whole_step (c : call) (fs pending : list Buffer)
    (this : FastCGIStream) :
  all_records fs -> all_records (records this) ->
  all_records (records (fst (effect c fs pending this)))
  /\ Forall delivers_whole (snd (effect c fs pending this))
  /\ all_records (records (stranded c fs pending this)).
Proof.
  intros F R.
  assert (A : all_records (records this ++ fs)) by (now apply Forall_app).
  split; [|split].
  - destruct this as [r w e s d p q src h]; simpl in R, A.
    destruct c; cbv [effect fst]; setters;
      try destruct s; try destruct e; try destruct h; simpl;
      auto; constructor.
  - destruct this as [r w e s d p q [src|] h]; simpl in R, A;
      destruct c; cbv [effect snd to_source]; setters;
      repeat match goal with
             | |- context [if ?b then _ else _] => destruct b; simpl
             | |- context [match ?b with first_pipe => _ | later_pipe => _ end]
               => destruct b; simpl
             end;
      repeat first [ apply Forall_app; split
                   | apply whole_data; assumption
                   | apply Forall_cons; [exact I|]
                   | apply Forall_nil ].
  - destruct this, c; simpl in *; auto.
Qed.

(** * Main results *)

(** C1.  Whole records written as one chunk to a new instance.
    [build_record] calls itself once for each record of the chunk and
    drains the queue in the innermost call only.  On a call stack that holds
    [stack] nested calls of it: when the chunk holds fewer than [stack]
    records (byte strings made of an 8-byte header, [body_len] bytes of
    content and [pad_len] bytes of padding, see [is_record_layout] and
    [header_for_lengths]), [write] signals one [data] per record, in the
    order of [rs], each equal byte for byte to its record, returns [true]
    and leaves the queue empty and no byte pending; when the chunk holds
    [stack] records or more, [write] throws a [RangeError] and signals
    nothing: the first [stack] records stay in the queue of an instance
    that is sending, and the bytes of the others stay pending.  The content
    of fresh memory ([uninit]) does not matter. *)
Theorem records_in_one_chunk (uninit : nat -> byte) (stack : nat)
    (rs : list Buffer) :
  forallb is_record rs = true ->
  (length rs < stack ->
   exists this',
     write_on uninit stack (Some (concat rs)) FastCGIStream_new
     = (Normal true, this', map on_data rs)
     /\ records this' = []
     /\ concat (pending_data this') = [])
  /\ (stack <= length rs ->
      exists this',
        write_on uninit stack (Some (concat rs)) FastCGIStream_new
        = (Throw RangeError, this', [])
        /\ is_sending this' = true
        /\ records this' = firstn stack rs
        /\ concat (pending_data this') = concat (skipn stack rs)).
Proof.
  intros R. apply forallb_all_records in R.
  destruct (write_on_count uninit stack (Some (concat rs)) rs []
              FastCGIStream_new R eq_refl) as [Fits Over].
  { simpl. now rewrite app_nil_r. }
  split; intros L.
  - destruct (Fits L) as [pending [E W]]. cbv zeta in W. rewrite W.
    setters. rewrite app_nil_r. eexists. split; [reflexivity|].
    split; [reflexivity|exact E].
  - destruct (Over L) as [pending [E W]]. rewrite W.
    eexists. split; [reflexivity|]. split; [reflexivity|].
    split; [reflexivity|]. simpl. rewrite E. apply app_nil_r.
Qed.

Lemma records_in_one_chunk_witness :
  forallb is_record [record_a; record_b; record_c] = true
  /\ (exists this',
        write_on ones 4 (Some (concat [record_a; record_b; record_c]))
          FastCGIStream_new
        = (Normal true, this', map on_data [record_a; record_b; record_c])
        /\ records this' = []
        /\ concat (pending_data this') = [])
  /\ (exists this',
        write_on ones 2 (Some (concat [record_a; record_b; record_c]))
          FastCGIStream_new
        = (Throw RangeError, this', [])
        /\ is_sending this' = true
        /\ records this' = firstn 2 [record_a; record_b; record_c]
        /\ concat (pending_data this')
           = concat (skipn 2 [record_a; record_b; record_c])).
Proof.
  split; [reflexivity|]. split.
  - apply (records_in_one_chunk ones 4 [record_a; record_b; record_c]);
      [reflexivity|simpl; lia].
  - apply (records_in_one_chunk ones 2 [record_a; record_b; record_c]);
      [reflexivity|simpl; lia].
Defined.

(** C2.  Chunk boundaries do not matter.  A record written to a new instance
    in any chunks whose concatenation it is (chunks of one byte and of no
    byte included) is signalled once, byte for byte, as when it is written
    whole; the queue is then empty and no byte is pending, so that no byte
    was lost or repeated. *)
Theorem record_in_any_chunks (uninit : nat -> byte) (r : Buffer)
    (chunks : list Buffer) :
  is_record r = true -> concat chunks = r ->
  (exists this',
     write_all uninit chunks FastCGIStream_new
     = (Normal tt, this', [on_data r])
     /\ records this' = [] /\ concat (pending_data this') = [])
  /\ (exists this',
        write_all uninit (map (fun b => [b]) r) FastCGIStream_new
        = (Normal tt, this', [on_data r])
        /\ records this' = [] /\ concat (pending_data this') = [])
  /\ (exists this',
        write uninit (Some r) FastCGIStream_new
        = (Normal true, this', [on_data r])
        /\ records this' = [] /\ concat (pending_data this') = []).
Proof.
  intros R C.
  assert (A : all_records [r]) by (constructor; [exact R|constructor]).
  assert (S : forall cs, concat cs = r ->
            exists this',
              write_all uninit cs FastCGIStream_new
              = (Normal tt, this', [on_data r])
              /\ records this' = [] /\ concat (pending_data this') = []).
  { intros cs E.
    destruct (write_all_fresh uninit [r] cs A) as [pending [P W]].
    - simpl. now rewrite app_nil_r.
    - rewrite W. eexists. split; [reflexivity|]. split; [reflexivity|exact P]. }
  split; [now apply S|]. split; [apply S, concat_singletons|].
  destruct (write_whole_records uninit [r] A) as [pending [P W]].
  simpl in W. rewrite app_nil_r in W.
  eexists. split; [exact W|]. split; [reflexivity|exact P].
Qed.

Lemma record_in_any_chunks_witness :
  is_record record_a = true
  /\ concat record_a_split = record_a
  /\ exists this',
       write_all ones record_a_split FastCGIStream_new
       = (Normal tt, this', [on_data record_a])
       /\ records this' = [] /\ concat (pending_data this') = [].
Proof.
  split; [reflexivity|]. split; [reflexivity|].
  apply (record_in_any_chunks ones record_a record_a_split); reflexivity.
Defined.

(** C3.  [emit_records] signals the queued records from the front of the
    queue to its back, and only if [is_sending] holds; it signals [end]
    after them, once, exactly when [is_sending] and [is_ending] both hold,
    and then [is_ending] is cleared and [readable] is [false]; when
    [is_sending] does not hold it signals nothing and changes nothing.  A
    second [emit_records] signals nothing more.  Records written and
    followed by [end()] are all signalled before the one [end], with or
    without a [pause()] before and a [resume()] after.  Whatever is called
    on a new instance, there are no more [end] signals than calls of
    [end()]. *)
Theorem emit_records_fifo (uninit : nat -> byte) (this : FastCGIStream) :
  (exists this',
    emit_records this
    = (Normal tt, this',
       if is_sending this
       then map on_data (records this)
            ++ (if is_ending this then [on_end] else [])
       else [])
    /\ (is_sending this = false -> this' = this)
    /\ (is_sending this = true ->
        records this' = [] /\ is_ending this' = false
        /\ readable this' = readable this && negb (is_ending this))
    /\ emit_records this' = (Normal tt, this', []))
  /\ (forall rs chunks,
        forallb is_record rs = true -> concat chunks = concat rs ->
        snd (run uninit (writes chunks ++ [call_end None]) FastCGIStream_new)
        = map on_data rs ++ [on_end]
        /\ snd (run uninit (call_pause :: writes chunks ++ [call_end None])
                  FastCGIStream_new)
           = []
        /\ snd (run uninit
                  (call_pause :: writes chunks
                   ++ [call_end None; call_resume])
                  FastCGIStream_new)
           = map on_data rs ++ [on_end])
  /\ (forall calls,
        count_end (snd (run uninit calls FastCGIStream_new))
        <= count_call_end calls).
Proof.
  split; [|split].
  2:{ intros rs chunks R C. apply end_after_records; [|exact C].
      now apply forallb_all_records. }
  2:{ intros calls.
      pose proof (run_end_budget uninit calls FastCGIStream_new) as B.
      simpl in B. lia. }
  exists (after_drain this). rewrite !emit_records_eq.
  destruct this as [r w e s d p q src h]. setters.
  destruct s, e; simpl; repeat split; try discriminate; try reflexivity;
    now rewrite andb_comm.
Qed.

(** C4.  [pause()] clears [is_sending] and calls the producer's [pause] when
    a producer is attached and has one.  Whole records written afterwards,
    in any chunks, signal nothing and are all appended to the queue in their
    order; [resume()] then sets [is_sending], calls the producer's [resume]
    when it has one, and signals every queued record in that order. *)
Theorem pause_holds_records (uninit : nat -> byte) (this : FastCGIStream)
    (rs chunks : list Buffer) :
  is_ending this = false -> concat (pending_data this) = [] ->
  forallb is_record rs = true -> concat chunks = concat rs ->
  let paused := set_is_sending false this in
  pause this = (Normal tt, paused, to_source has_pause source_pause this)
  /\ exists pending,
       concat pending = []
       /\ let held :=
            set_records (records this ++ rs)
              (set_pending_data pending paused) in
          write_all uninit chunks paused = (Normal tt, held, [])
          /\ resume held
             = (Normal tt, set_records [] (set_is_sending true held),
                to_source has_resume source_resume this
                ++ map on_data (records this ++ rs)).
Proof.
  intros E P R C paused. split; [apply pause_eq|].
  apply forallb_all_records in R.
  destruct (write_all_eq uninit chunks paused)
    as [fs [pending [F [C' [N W]]]]].
  - destruct this; exact E.
  - destruct this; discriminate.
  - destruct this; simpl in *. now rewrite P.
  - assert (C'' : concat rs = concat fs ++ concat pending).
    { rewrite <- C, <- C'. destruct this; simpl in *. now rewrite P. }
    destruct (whole_records_found rs fs pending R F N C'') as [-> Z].
    exists pending. split; [exact Z|]. split.
    + rewrite W. destruct this; reflexivity.
    + rewrite resume_eq. destruct this as [r w e s d p q src h].
      simpl in E. subst e. setters. unfold to_source. simpl.
      now rewrite app_nil_r.
Qed.

Lemma pause_holds_records_witness :
  is_ending piped = false
  /\ concat (pending_data piped) = []
  /\ forallb is_record [record_a; record_b; record_c] = true
  /\ pause piped
     = (Normal tt, set_is_sending false piped, [source_pause upstream])
  /\ exists pending,
       concat pending = []
       /\ let held :=
            set_records [record_a; record_b; record_c]
              (set_pending_data pending (set_is_sending false piped)) in
          write_all ones [record_a; record_b; record_c]
            (set_is_sending false piped)
          = (Normal tt, held, [])
          /\ resume held
             = (Normal tt, set_records [] (set_is_sending true held),
                [source_resume upstream; on_data record_a; on_data record_b;
                 on_data record_c]).
Proof.
  split; [reflexivity|]. split; [reflexivity|]. split; [reflexivity|].
  apply (pause_holds_records ones piped [record_a; record_b; record_c]
           [record_a; record_b; record_c]); reflexivity.
Defined.

(** C5, as amended.  [error(er)] sets [readable] and [writable] to [false],
    signals [er] once and returns [false]; no later call sets either flag
    back, on a call stack of any depth and whether or not a call exhausts
    it. *)
Theorem error_closes_flags (uninit : nat -> byte) (stack : nat)
    (this : FastCGIStream) (er : exn) (calls : list call) :
  let closed := set_writable false (set_readable false this) in
  error er this = (Normal false, closed, [on_error er])
  /\ let later := snd (fst (run_on uninit stack calls closed)) in
     readable later = false /\ writable later = false.
Proof.
  intros closed. split; [reflexivity|]. intros later.
  destruct (run_on_invariant uninit
              (fun t => readable t = false /\ writable t = false)
              (fun _ => True)) with (stack := stack) (calls := calls)
    (this := closed) as [H _].
  - intros c fs pending t _ H. split; [now apply closed_flags_step|].
    split; [apply Forall_forall; auto|now apply closed_flags_stranded].
  - now destruct this.
  - exact H.
Qed.

(** C5 does not hold as stated: no method reads [readable] or [writable],
    and after [error] a [write] of a whole record signals it and returns
    [true]. *)
Lemma write_after_error_delivers :
  let closed := set_writable false (set_readable false FastCGIStream_new) in
  error (Error "failed") FastCGIStream_new
  = (Normal false, closed, [on_error (Error "failed")])
  /\ write zeroed (Some record_a) closed
     = (Normal true, closed, [on_data record_a]).
Proof. split; vm_compute; reflexivity. Qed.

(** C6.  When a pass of [build_record] reaches [get_header], that is when
    the pending chunks hold 8 bytes after the merge, the first chunk has at
    least 8 bytes: the reads at offsets 0 to 7 are in bounds, and the header
    decoded is that of the first 8 pending bytes, however they were cut into
    chunks.  No pass raises. *)
Theorem header_never_split (uninit : nat -> byte) (pd : list Buffer) :
  8 <= pending_bytes (merge_front pd) ->
  exists chunk rest header,
    merge_front pd = chunk :: rest
    /\ 8 <= length chunk
    /\ (forall offset, offset < 8 -> readUInt8 chunk offset <> None)
    /\ get_header chunk = Some header
    /\ get_header (concat pd) = Some header
    /\ forall e pd', build_pass uninit pd <> Raised e pd'.
Proof.
  intros H. rewrite pending_bytes_concat, merge_front_concat in H.
  destruct (merge_front_head pd H) as [chunk [rest [E L]]].
  destruct (get_header_Some chunk L) as [header G].
  exists chunk, rest, header. repeat split; auto.
  - intros offset O. apply readUInt8_in_bounds. lia.
  - rewrite <- (merge_front_concat pd), E. simpl.
    now rewrite get_header_app.
  - intros e pd'. apply build_pass_never_raises.
Qed.

Lemma header_never_split_witness :
  8 <= pending_bytes (merge_front split_pending)
  /\ exists chunk rest header,
       merge_front split_pending = chunk :: rest
       /\ 8 <= length chunk
       /\ (forall offset, offset < 8 -> readUInt8 chunk offset <> None)
       /\ get_header chunk = Some header
       /\ get_header (concat split_pending) = Some header
       /\ forall e pd', build_pass ones split_pending <> Raised e pd'.
Proof.
  split; [vm_compute; lia|].
  apply (header_never_split ones split_pending). vm_compute. lia.
Defined.

(** C7.  When [end()] leaves bytes pending after its write, they are not a
    whole record, its last statement reads the unbound [self], so that the
    call throws a [ReferenceError], and no [error] is signalled. *)
Theorem end_leftover_not_signalled (uninit : nat -> byte)
    (this this' : FastCGIStream) (data : option Buffer)
    (r : completion unit) (out : list signal) :
  end_ uninit data this = (r, this', out) ->
  concat (pending_data this') <> [] ->
  r = Throw (ReferenceError "self")
  /\ holds_record (concat (pending_data this')) = false
  /\ forall er, ~ In (on_error er) out.
Proof.
  intros E L.
  destruct (end_eq uninit data this) as [fs [pending [F [C [N W]]]]].
  simpl in W. rewrite W in E. injection E as <- <- <-.
  assert (P : pending_data
                (after_drain
                   (set_records (records this ++ fs)
                      (set_pending_data pending
                         (set_writable false (set_is_ending true this)))))
              = pending).
  { destruct this as [r w e s d p q src h]. setters. now destruct s. }
  rewrite P in *. split; [|split].
  - destruct pending; [now elim L|reflexivity].
  - exact N.
  - intros er. apply no_error_in_drain.
Qed.

Lemma end_leftover_not_signalled_witness :
  end_ ones (Some (record_a ++ firstn 3 record_b)) FastCGIStream_new
  = (Throw (ReferenceError "self"),
     set_pending_data [firstn 3 record_b]
       (set_writable false (set_readable false FastCGIStream_new)),
     [on_data record_a; on_end])
  /\ forall er, ~ In (on_error er) [on_data record_a; on_end].
Proof.
  split; [vm_compute; reflexivity|].
  apply (end_leftover_not_signalled ones FastCGIStream_new
           (set_pending_data [firstn 3 record_b]
              (set_writable false (set_readable false FastCGIStream_new)))
           (Some (record_a ++ firstn 3 record_b))
           (Throw (ReferenceError "self")) [on_data record_a; on_end]).
  - vm_compute. reflexivity.
  - vm_compute. discriminate.
Defined.

(** C8.  The first ['pipe'] event stores the producer in [source].  Every
    later one, after any calls, signals an [error] whose [source] property
    is the producer that was stored, and leaves [source] as it was. *)
Theorem pipe_binds_once (uninit : nat -> byte) (this : FastCGIStream)
    (src src' : Producer) (calls : list call) :
  pipe_handler this = first_pipe ->
  let bound := set_pipe_handler later_pipe (set_source (Some src) this) in
  pipe src this = (Normal tt, bound, [])
  /\ source bound = Some src
  /\ let later := fst (run uninit calls bound) in
     let failed := set_writable false (set_readable false later) in
     pipe src' later
     = (Normal tt, failed,
        [on_error (Error_source "Already have a pipe source" (Some src))])
     /\ source failed = Some src
     /\ readable failed = false /\ writable failed = false.
Proof.
  intros H bound. split; [rewrite pipe_eq, H; reflexivity|].
  split; [reflexivity|]. intros later failed.
  destruct (run_bound uninit src calls bound) as [B L]; try reflexivity.
  fold later in B, L.
  split; [rewrite pipe_eq, L, B; reflexivity|].
  unfold failed. destruct later; simpl in *. auto.
Qed.

Lemma pipe_binds_once_witness :
  pipe_handler FastCGIStream_new = first_pipe
  /\ pipe upstream FastCGIStream_new = (Normal tt, piped, [])
  /\ source piped = Some upstream
  /\ let later :=
       fst (run ones [call_write (Some record_a); call_pause] piped) in
     let failed := set_writable false (set_readable false later) in
     pipe intruder later
     = (Normal tt, failed,
        [on_error
           (Error_source "Already have a pipe source" (Some upstream))])
     /\ source failed = Some upstream
     /\ readable failed = false /\ writable failed = false.
Proof.
  split; [reflexivity|].
  apply (pipe_binds_once ones FastCGIStream_new upstream intruder
           [call_write (Some record_a); call_pause]).
  reflexivity.
Defined.

(** C9, as amended.  [destroy()] sets [is_dead], clears [is_ending] and
    [is_sending], and calls the producer's [destroy] exactly when a producer
    is attached and has one.  After it, calls other than [resume()] signal
    neither [data] nor [end], and leave [is_sending] cleared. *)
Theorem destroy_stops_delivery (uninit : nat -> byte) (this : FastCGIStream)
    (calls : list call) :
  forallb (fun c => negb (is_resume c)) calls = true ->
  let destroyed :=
    set_is_sending false (set_is_ending false (set_is_dead true this)) in
  destroy this
  = (Normal tt, destroyed, to_source has_destroy source_destroy this)
  /\ is_dead destroyed = true
  /\ is_ending destroyed = false
  /\ is_sending destroyed = false
  /\ Forall (fun s => is_delivery s = false)
       (snd (run uninit calls destroyed))
  /\ is_sending (fst (run uninit calls destroyed)) = false.
Proof.
  intros A destroyed. apply no_resume_Forall in A.
  split; [apply destroy_eq|]. repeat (split; [reflexivity|]).
  destruct (run_paused uninit calls destroyed A eq_refl) as [S D]. auto.
Qed.

Lemma destroy_stops_delivery_witness :
  forallb (fun c => negb (is_resume c)) after_destroy = true
  /\ Forall (fun s => is_delivery s = false)
       (snd (run ones after_destroy
               (set_is_sending false
                  (set_is_ending false (set_is_dead true piped))))).
Proof.
  split; [reflexivity|].
  apply (destroy_stops_delivery ones piped after_destroy). reflexivity.
Defined.

(** C9 does not hold as stated: no method reads [is_dead]; after
    [destroy()] a [write] is accepted (it returns [true] and queues the
    record), and a [resume()] signals the record. *)
Lemma destroyed_still_writes_and_resumes :
  let destroyed :=
    set_is_sending false
      (set_is_ending false (set_is_dead true FastCGIStream_new)) in
  destroy FastCGIStream_new = (Normal tt, destroyed, [])
  /\ write zeroed (Some record_a) destroyed
     = (Normal true, set_records [record_a] destroyed, [])
  /\ resume (set_records [record_a] destroyed)
     = (Normal tt, set_is_sending true destroyed, [on_data record_a]).
Proof. repeat split; vm_compute; reflexivity. Qed.

(** C10.  [build_record] returns on every instance.  An iteration of the
    merge loop leaves one chunk less.  An iteration of the copy loop either
    takes a whole chunk or fills the record and ends the loop; when the
    chunks hold the bytes that the record needs, chunks of no byte included,
    the loop ends with the record filled, never for want of a chunk.  A pass
    that builds a record leaves at least 8 bytes less pending. *)
Theorem build_record_terminates (uninit : nat -> byte) :
  (forall pd,
     length (merge_front pd) <= length pd
     /\ pending_bytes (merge_front pd) = pending_bytes pd)
  /\ (forall first second rest,
        length first < 8 ->
        merge_front (first :: second :: rest)
        = merge_front (Buffer_concat [first; second] :: rest)
        /\ length (Buffer_concat [first; second] :: rest)
           < length (first :: second :: rest))
  /\ (forall n record offset chunk rest,
        offset < n ->
        (length chunk <= n - offset ->
         fill_record n record offset (chunk :: rest)
         = fill_record n (copy chunk record offset 0 (length chunk))
             (offset + length chunk) rest)
        /\ (n - offset < length chunk ->
            fill_record n record offset (chunk :: rest)
            = Filled (copy chunk record offset 0 (n - offset))
                (slice chunk (n - offset) :: rest)))
  /\ (forall n record offset pd,
        length record = n -> offset <= n -> n - offset <= pending_bytes pd ->
        exists record' pd',
          fill_record n record offset pd = Filled record' pd'
          /\ pending_bytes pd' + (n - offset) = pending_bytes pd)
  /\ (forall pd record rest,
        build_pass uninit pd = Built record rest ->
        8 <= length record
        /\ pending_bytes rest + length record = pending_bytes pd)
  /\ (forall this,
        exists this' out, build_record uninit this = (Normal tt, this', out)).
Proof.
  split; [|split; [|split; [|split; [|split]]]].
  - intros pd. split; [apply merge_front_length|].
    now rewrite !pending_bytes_concat, merge_front_concat.
  - intros first second rest L. split; [now apply merge_front_step|].
    cbn [length]. apply Nat.lt_succ_diag_r.
  - intros n record offset chunk rest O. split; intros L.
    + now apply fill_record_chunk_fits.
    + now apply fill_record_chunk_exceeds.
  - intros n record offset pd R O B. rewrite pending_bytes_concat in B.
    destruct (fill_record_spec n record offset pd R O B) as [pd' [F C]].
    eexists _, pd'. split; [exact F|].
    rewrite !pending_bytes_concat, C, length_skipn. lia.
  - intros pd record rest B.
    destruct (build_pass_cases uninit pd) as [[_ E]|[r [p [E [V C]]]]];
      rewrite E in B; [discriminate|].
    injection B as <- <-. split; [now apply is_record_length|].
    rewrite !pending_bytes_concat, C, length_app. lia.
  - intros this. apply build_record_normal.
Qed.

(** * Further properties

    What follows holds of the code beyond the main results: the header
    decoder, the two loops of [build_record], the bytes across any sequence
    of calls, the edges of [end], the flags, the producer, and
    [normalize_data]. *)

(** ** The header decoder *)

(** X1.  [get_header] fails exactly on a chunk of fewer than 8 bytes.  When
    it returns, [version], [type], [pad_len] and [reserved] are below 256,
    [req_id] and [body_len] are below 65536, and the length
    [8 + body_len + pad_len] that [build_record] computes for the record is
    at least 8 and at most 65798. *)
Theorem get_header_total_from_8 (chunk : Buffer) :
  (get_header chunk = None <-> length chunk < 8)
  /\ forall header,
       get_header chunk = Some header ->
       version header < 256 /\ type header < 256
       /\ req_id header < 256 * 256 /\ body_len header < 256 * 256
       /\ pad_len header < 256 /\ reserved header < 256
       /\ 8 <= 8 + body_len header + pad_len header
       /\ 8 + body_len header + pad_len header <= 256 * 256 + 262.
Proof.
  split.
  - split.
    + intros N. destruct (le_lt_dec 8 (length chunk)) as [L|L]; [|exact L].
      destruct (get_header_Some chunk L) as [h H]. congruence.
    + apply get_header_None.
  - intros header H.
    destruct (get_header_bounds chunk header H) as [_ [V [T [R [B [P Z]]]]]].
    repeat split; try assumption; lia.
Qed.

Lemma to_nat_inj (a b : byte) : Byte.to_nat a = Byte.to_nat b -> a = b.
Proof.
  intros H. pose proof (Byte.of_to_nat a) as A.
  rewrite H, Byte.of_to_nat in A. congruence.
Qed.

Lemma two_bytes_inj (h l h' l' : byte) :
  Byte.to_nat h * 256 + Byte.to_nat l = Byte.to_nat h' * 256 + Byte.to_nat l'
  -> h = h' /\ l = l'.
Proof.
  intros H.
  pose proof (Byte.to_nat_bounded h). pose proof (Byte.to_nat_bounded l).
  pose proof (Byte.to_nat_bounded h'). pose proof (Byte.to_nat_bounded l').
  split; apply to_nat_inj; lia.
Qed.

(** X2.  The header decoded determines the 8 bytes it was read from: two
    chunks with the same header begin with the same 8 bytes, so that no bit
    of the 8 bytes is dropped by the decoder. *)
Theorem get_header_injective (a b : Buffer) (header : Header) :
  get_header a = Some header -> get_header b = Some header ->
  firstn 8 a = firstn 8 b.
Proof.
  intros A B.
  destruct (get_header_bounds a header A) as [La _].
  destruct (get_header_bounds b header B) as [Lb _].
  do 8 (destruct a as [|? a]; [simpl in La; lia|]).
  do 8 (destruct b as [|? b]; [simpl in Lb; lia|]).
  unfold get_header, readUInt8, readUInt16BE in A, B.
  cbn [nth_error Nat.add] in A, B.
  rewrite <- B in A. injection A as V T R Bl P Z.
  apply to_nat_inj in V, T, P, Z.
  apply two_bytes_inj in R, Bl. destruct R, Bl. subst.
  reflexivity.
Qed.

Lemma get_header_injective_witness :
  get_header record_a = Some header_a
  /\ get_header (firstn 8 record_a ++ record_b) = Some header_a
  /\ firstn 8 record_a = firstn 8 (firstn 8 record_a ++ record_b).
Proof.
  split; [reflexivity|]. split; [reflexivity|].
  apply (get_header_injective record_a (firstn 8 record_a ++ record_b)
           header_a); reflexivity.
Defined.

(** ** The two loops of [build_record] *)

(** X3.  The merge loop of [build_record] replaces the first [k + 1] chunks
    by their concatenation and leaves the chunks after them as they are,
    for the least [k] at which the first chunk has 8 bytes or no other chunk
    is left; running the loop again changes nothing. *)
Theorem merge_front_prefix (chunk : Buffer) (rest : list Buffer) :
  exists k,
    k <= length rest
    /\ merge_front (chunk :: rest)
       = (chunk ++ concat (firstn k rest)) :: skipn k rest
    /\ (k = length rest \/ 8 <= length (chunk ++ concat (firstn k rest)))
    /\ (forall j, j < k -> length (chunk ++ concat (firstn j rest)) < 8)
    /\ merge_front (merge_front (chunk :: rest)) = merge_front (chunk :: rest).
Proof.
  remember (chunk :: rest) as pd eqn:E. revert chunk rest E.
  funelim (merge_front pd); intros chunk rest' E; try discriminate.
  - injection E as <- <-. exists 0. simpl. rewrite app_nil_r.
    repeat split; auto; try lia.
  - injection E as <- <-.
    destruct (H _ _ eq_refl) as [k [Lk [M [St [Min I]]]]].
    exists (S k). unfold Buffer_concat in *. simpl in *.
    rewrite app_nil_r in *. rewrite <- app_assoc in *.
    split; [lia|]. split; [exact M|]. split; [|split].
    + destruct St as [->|St]; [now left|now right].
    + intros j Hj. destruct j as [|j]; simpl.
      * rewrite app_nil_r. exact l.
      * rewrite app_assoc. apply Min. lia.
    + exact I.
  - injection E as <- <-. exists 0. simpl. rewrite app_nil_r.
    split; [lia|]. split; [reflexivity|]. split; [right; lia|].
    split; [intros j Hj; lia|].
    rewrite merge_front_equation_3, Heq.
    now rewrite merge_front_clause_1_equation_2.
Qed.

Lemma drop_bytes_0 (pd : list Buffer) : drop_bytes 0 pd = pd.
Proof. now destruct pd. Qed.

(** The copy loop in closed form. *)
Lemma fill_record_exact (n : nat) (record : Buffer) (offset : nat)
    (pd : list Buffer) :
  length record = n -> offset <= n -> n - offset <= length (concat pd) ->
  fill_record n record offset pd
  = Filled (firstn offset record ++ firstn (n - offset) (concat pd))
      (drop_bytes (n - offset) pd).
Proof.
  funelim (fill_record n record offset pd); intros Hrec Hoff Hbytes.
  - replace (record_bytes - offset) with 0 by lia.
    rewrite drop_bytes_0. simpl. now rewrite app_nil_r, firstn_all2 by lia.
  - simpl in Hbytes. lia.
  - simpl in Hbytes. rewrite length_app in Hbytes.
    rewrite H; [|rewrite copy_length; lia|lia|lia].
    rewrite firstn_copy by lia. simpl.
    destruct (Nat.eqb_spec (record_bytes - offset) 0) as [Z|_]; [lia|].
    destruct (Nat.leb_spec (length next_chunk) (record_bytes - offset));
      [|lia].
    rewrite <- app_assoc, firstn_app.
    rewrite !(firstn_all2 next_chunk) by lia.
    replace (record_bytes - offset - length next_chunk)
      with (record_bytes - (offset + length next_chunk)) by lia.
    reflexivity.
  - simpl in Hbytes. rewrite length_app in Hbytes.
    rewrite H; [|rewrite copy_length; lia|lia|lia].
    rewrite firstn_copy by lia. simpl.
    destruct (Nat.eqb_spec (record_bytes - offset) 0) as [Z|_]; [lia|].
    destruct (Nat.leb_spec (length next_chunk) (record_bytes - offset));
      [lia|].
    replace (record_bytes - (offset + (record_bytes - offset))) with 0 by lia.
    rewrite drop_bytes_0, firstn_O, app_nil_r, firstn_app.
    replace (record_bytes - offset - length next_chunk) with 0 by lia.
    now rewrite firstn_O, app_nil_r.
Qed.

Lemma build_pass_exact (uninit : nat -> byte) (pd : list Buffer) :
  build_pass uninit pd = pass_of pd.
Proof.
  unfold pass_of.
  destruct (holds_record (concat pd)) eqn:E.
  - unfold holds_record in E. unfold build_pass.
    rewrite pending_bytes_concat, merge_front_concat.
    destruct (get_header (concat pd)) as [header|] eqn:G; [|discriminate].
    rewrite E. apply Nat.leb_le in E.
    destruct (get_header_bounds _ _ G) as [L _].
    destruct (Nat.ltb_spec (length (concat pd)) 8) as [L'|_]; [lia|].
    destruct (merge_front_head pd L) as [chunk [rest [M Hc]]].
    pose proof (merge_front_concat pd) as C. rewrite M in *. simpl in C.
    assert (G' : get_header chunk = Some header).
    { rewrite <- G, <- C. symmetry. now apply get_header_app. }
    rewrite G'.
    set (n := 8 + body_len header + pad_len header) in *.
    destruct (Nat.ltb_spec (length (concat pd)) n) as [L'|_]; [lia|].
    rewrite fill_record_exact.
    + rewrite Nat.sub_0_r. simpl. now rewrite C.
    + apply Buffer_new_length.
    + lia.
    + simpl. rewrite C. lia.
  - rewrite (build_pass_NoRecord uninit pd E). unfold holds_record in E.
    destruct (get_header (concat pd)); [now rewrite E|reflexivity].
Qed.

(** The content of fresh memory never shows: [build_record] overwrites every
    byte of the record it allocates. *)
Lemma build_record_uninit (uninit uninit' : nat -> byte)
    (this : FastCGIStream) :
  build_record uninit this = build_record uninit' this.
Proof.
  remember (pending_bytes (pending_data this)) as m eqn:Hm.
  revert this Hm.
  induction m as [m IH] using (well_founded_induction lt_wf).
  intros this Hm.
  rewrite (build_record_body uninit), (build_record_body uninit').
  rewrite (build_pass_exact uninit'), <- (build_pass_exact uninit).
  destruct (build_pass uninit (pending_data this)) as [p|r p|e p] eqn:B;
    try reflexivity.
  apply build_pass_decreases in B.
  eapply IH; [|reflexivity]. simpl. lia.
Qed.

Lemma drop_bytes_concat (n : nat) (pd : list Buffer) :
  concat (drop_bytes n pd) = skipn n (concat pd).
Proof.
  revert n. induction pd as [|chunk rest IH]; intros n; simpl.
  - now rewrite skipn_nil.
  - destruct (Nat.eqb_spec n 0) as [->|Z]; [reflexivity|].
    rewrite skipn_app.
    destruct (Nat.leb_spec (length chunk) n) as [L|L].
    + rewrite IH, (@skipn_all2 _ n chunk) by lia. reflexivity.
    + replace (n - length chunk) with 0 by lia. reflexivity.
Qed.

(** X4.  The copy loop of [build_record], run on a new Buffer of [n] bytes
    when the pending chunks hold at least [n] bytes, fills it with the next
    [n] bytes of the chunks, whatever the chunk boundaries and whatever the
    Buffer held; the chunks it leaves hold the bytes that follow, and are
    no more than before. *)
Theorem copy_loop_takes_next_bytes (uninit : nat -> byte) (n : nat)
    (pd : list Buffer) :
  n <= length (concat pd) ->
  fill_record n (Buffer_new uninit n) 0 pd
  = Filled (firstn n (concat pd)) (drop_bytes n pd)
  /\ concat (drop_bytes n pd) = skipn n (concat pd)
  /\ length (drop_bytes n pd) <= length pd.
Proof.
  intros L. split; [|split; [apply drop_bytes_concat|]].
  - rewrite fill_record_exact.
    + now rewrite Nat.sub_0_r.
    + apply Buffer_new_length.
    + lia.
    + lia.
  - clear L. revert n. induction pd as [|chunk rest IH]; intros n; simpl.
    + lia.
    + destruct (n =? 0); [simpl; lia|].
      destruct (length chunk <=? n); [|simpl; lia].
      specialize (IH (n - length chunk)). lia.
Qed.

Lemma copy_loop_takes_next_bytes_witness :
  11 <= length (concat split_pending)
  /\ fill_record 11 (Buffer_new ones 11) 0 split_pending
     = Filled (firstn 11 (concat split_pending))
         (drop_bytes 11 split_pending)
  /\ concat (drop_bytes 11 split_pending)
     = skipn 11 (concat split_pending)
  /\ length (drop_bytes 11 split_pending) <= length split_pending.
Proof.
  split; [vm_compute; lia|].
  apply (copy_loop_takes_next_bytes ones 11 split_pending).
  vm_compute. lia.
Defined.

Section Uninit.
Variables uninit uninit' : nat -> byte.

Lemma perform_uninit (c : call) (this : FastCGIStream) :
  perform uninit c this = perform uninit' c this.
Proof.
  destruct c; try reflexivity; unfold perform.
  - run_M. rewrite !write_unfold.
    now rewrite (build_record_uninit uninit uninit').
  - rewrite !end_unfold, !write_unfold.
    now rewrite (build_record_uninit uninit uninit').
Qed.
End Uninit.

(** X5.  What [new Buffer(n)] holds before [build_record] fills it never
    shows: for any two contents of fresh memory, the same calls on the same
    instance leave the same instance and signal the same. *)
Theorem uninit_never_shows (uninit uninit' : nat -> byte)
    (calls : list call) (this : FastCGIStream) :
  run uninit calls this = run uninit' calls this.
Proof.
  revert this. induction calls as [|c rest IH]; intros this; [reflexivity|].
  simpl. rewrite (perform_uninit uninit uninit').
  destruct (perform uninit' c this) as [[r this1] out1]. now rewrite IH.
Qed.

(** ** The bytes across calls *)


Lemma delivered_app (out1 out2 : list signal) :
  delivered (out1 ++ out2) = delivered out1 ++ delivered out2.
Proof. apply flat_map_app. Qed.

Lemma delivered_data (rs : list Buffer) : delivered (map on_data rs) = rs.
Proof. induction rs as [|r rs IH]; simpl; [|rewrite IH]; reflexivity. Qed.

Lemma delivered_to_source (has : Producer -> bool)
    (sig : Producer -> signal) (this : FastCGIStream) :
  (forall src record, sig src <> on_data record) ->
  delivered (to_source has sig this) = [].
Proof.
  intros H. unfold to_source. destruct (source this) as [src|]; [|reflexivity].
  destruct (has src); [|reflexivity]. simpl.
  destruct (sig src) eqn:E; try reflexivity. now elim (H src record).
Qed.

Lemma settled_drain (seen : list Buffer) (bytes : Buffer)
    (queued : FastCGIStream) :
  framed seen bytes queued ->
  settled (seen ++ delivered (drain_signals queued)) bytes
    (after_drain queued).
Proof.
  intros [A [N B]]. destruct queued as [r w e s d p q src h].
  unfold settled, framed. setters.
  destruct s, e; simpl in *;
    rewrite ?delivered_app, ?delivered_data, ?app_nil_r; simpl;
    rewrite ?app_nil_r; repeat split; auto; discriminate.
Qed.

(** A change of the instance that keeps the queue and the pending chunks,
    and does not start sending. *)
Lemma settled_keep (seen : list Buffer) (bytes : Buffer)
    (this this' : FastCGIStream) :
  records this' = records this ->
  pending_data this' = pending_data this ->
  (is_sending this' = true -> is_sending this = true) ->
  settled seen bytes this -> settled (seen ++ []) (bytes ++ []) this'.
Proof.
  intros R P S [[A [N B]] Q]. unfold settled, framed.
  rewrite R, P, !app_nil_r. repeat split; auto.
Qed.

Lemma framed_queue (seen fs pending : list Buffer) (bytes more : Buffer)
    (this this' : FastCGIStream) :
  all_records fs ->
  holds_record (concat pending) = false ->
  concat (pending_data this) ++ more = concat fs ++ concat pending ->
  records this' = records this ++ fs ->
  pending_data this' = pending ->
  framed seen bytes this ->
  framed seen (bytes ++ more) this'.
Proof.
  intros F N C R P [A [N0 B]]. unfold framed. rewrite R, P.
  split; [|split; [exact N|]].
  - rewrite app_assoc. now apply Forall_app.
  - rewrite <- B, app_assoc, concat_app, <- !app_assoc. f_equal.
    now rewrite C.
Qed.

Lemma settled_step (c : call) (fs pending : list Buffer)
    (seen : list Buffer) (bytes : Buffer) (this : FastCGIStream) :
  all_records fs ->
  holds_record (concat pending) = false ->
  concat (pending_data this) ++ call_bytes c = concat fs ++ concat pending ->
  settled seen bytes this ->
  settled (seen ++ delivered (snd (effect c fs pending this)))
    (bytes ++ call_bytes c) (fst (effect c fs pending this)).
Proof.
  intros F N C [Fr Q].
  destruct c as [data|data| | | | | |er|src']; cbv [effect fst snd].
  - apply settled_drain.
    apply (framed_queue seen fs pending bytes _ this); auto;
      now destruct this.
  - apply settled_drain.
    apply (framed_queue seen fs pending bytes _ this); auto;
      now destruct this.
  - rewrite delivered_to_source by discriminate.
    apply (settled_keep seen bytes this); try (now destruct this);
      try (split; assumption).
  - rewrite delivered_app, delivered_to_source by discriminate.
    cbn [call_bytes app]. rewrite app_nil_r.
    apply settled_drain. destruct Fr as [A [N0 B]].
    unfold framed. destruct this; simpl in *. repeat split; assumption.
  - rewrite delivered_to_source by discriminate.
    apply (settled_keep seen bytes this); try (now destruct this);
      try (split; assumption).
  - apply (settled_keep seen bytes this); auto. split; assumption.
  - apply (settled_keep seen bytes this); auto. split; assumption.
  - apply (settled_keep seen bytes this); try (now destruct this);
      try (split; assumption).
  - destruct (pipe_handler this); simpl;
      apply (settled_keep seen bytes this); try (now destruct this);
      try (split; assumption).
Qed.

Section Frames.
Variable uninit : nat -> byte.

Lemma perform_frames (c : call) (this : FastCGIStream) :
  holds_record (concat (pending_data this)) = false ->
  exists fs pending r,
    perform uninit c this
    = (r, fst (effect c fs pending this), snd (effect c fs pending this))
    /\ all_records fs
    /\ holds_record (concat pending) = false
    /\ concat (pending_data this) ++ call_bytes c
       = concat fs ++ concat pending.
Proof.
  intros N0.
  assert (K : forall c', call_bytes c' = [] ->
            (exists r, perform uninit c' this
                       = (r, fst (effect c' [] (pending_data this) this),
                          snd (effect c' [] (pending_data this) this))) ->
            exists fs pending r,
              perform uninit c' this
              = (r, fst (effect c' fs pending this),
                 snd (effect c' fs pending this))
              /\ all_records fs
              /\ holds_record (concat pending) = false
              /\ concat (pending_data this) ++ call_bytes c'
                 = concat fs ++ concat pending).
  { intros c' Z [r E]. exists [], (pending_data this), r.
    split; [exact E|]. split; [constructor|]. split; [exact N0|].
    rewrite Z. apply app_nil_r. }
  destruct c as [data|data| | | | | |er|src].
  - destruct (write_eq uninit data this) as [fs [pending [F [C [N W]]]]].
    exists fs, pending. eexists. split; [|auto].
    unfold perform. run_M. simpl in W. rewrite W. simpl.
    now rewrite app_nil_r.
  - destruct (end_eq uninit data this) as [fs [pending [F [C [N W]]]]].
    exists fs, pending. eexists. split; [|auto].
    unfold perform. simpl in W. rewrite W. reflexivity.
  - apply K; [reflexivity|]. eexists. unfold perform. now rewrite pause_eq.
  - apply K; [reflexivity|]. eexists. unfold perform. now rewrite resume_eq.
  - apply K; [reflexivity|]. eexists. unfold perform. now rewrite destroy_eq.
  - apply K; [reflexivity|]. eexists. reflexivity.
  - apply K; [reflexivity|]. eexists. reflexivity.
  - apply K; [reflexivity|]. eexists. reflexivity.
  - apply K; [reflexivity|]. eexists. unfold perform. rewrite pipe_eq. simpl.
    destruct (pipe_handler this); reflexivity.
Qed.

(** Whatever is called and in whatever order, the instance stays settled:
    the records delivered, then those queued, then the pending bytes are the
    bytes written, in order. *)
Lemma run_settled (calls : list call) (seen : list Buffer) (bytes : Buffer)
    (this : FastCGIStream) :
  settled seen bytes this ->
  settled (seen ++ delivered (snd (run uninit calls this)))
    (bytes ++ written calls) (fst (run uninit calls this)).
Proof.
  revert seen bytes this.
  induction calls as [|c rest IH]; intros seen bytes this S.
  - simpl. now rewrite !app_nil_r.
  - destruct S as [[A [N0 B]] Q].
    destruct (perform_frames c this N0) as [fs [pending [r [E [F [N C]]]]]].
    pose proof (settled_step c fs pending seen bytes this F N C
                  (conj (conj A (conj N0 B)) Q)) as S1.
    specialize (IH _ _ _ S1).
    simpl. rewrite E.
    destruct (run uninit rest _) as [this2 out2]. simpl in *.
    unfold written in *. simpl.
    now rewrite delivered_app, !app_assoc in *.
Qed.

Lemma new_settled : settled [] [] FastCGIStream_new.
Proof. repeat split; constructor. Qed.

End Frames.

(** X7.  No byte is lost, repeated or moved: after any calls on a new
    instance, the records signalled, then the records queued, then the
    pending chunks hold exactly the bytes handed to [write] and [end], in
    the order in which they were handed. *)
Theorem bytes_conserved (uninit : nat -> byte) (calls : list call) :
  concat (delivered (snd (run uninit calls FastCGIStream_new)))
  ++ concat (records (fst (run uninit calls FastCGIStream_new)))
  ++ concat (pending_data (fst (run uninit calls FastCGIStream_new)))
  = written calls.
Proof.
  destruct (run_settled uninit calls [] [] FastCGIStream_new
              (new_settled)) as [[_ [_ B]] _].
  simpl in B. rewrite <- B, concat_app. now rewrite app_assoc.
Qed.

(** X8.  After any calls on a new instance, on a call stack of any depth,
    every record signalled and every record queued is one whole record.
    If no call exhausted the stack, the pending bytes do not begin with a
    whole record: a record is moved to the queue by the call that completes
    it. *)
Theorem only_whole_records (uninit : nat -> byte) (stack : nat)
    (calls : list call) :
  forallb is_record
    (delivered (snd (run_on uninit stack calls FastCGIStream_new))) = true
  /\ forallb is_record
       (records (snd (fst (run_on uninit stack calls FastCGIStream_new))))
     = true
  /\ (fst (fst (run_on uninit stack calls FastCGIStream_new)) = true ->
      holds_record
        (concat
           (pending_data
              (snd (fst (run_on uninit stack calls FastCGIStream_new)))))
      = false).
Proof.
  destruct (run_on_invariant uninit
              (fun t => all_records (records t)) delivers_whole)
    with (stack := stack) (calls := calls) (this := FastCGIStream_new)
    as [P Q].
  - intros c fs pending t F R. now apply whole_step.
  - constructor.
  - split; [|split].
    + apply forallb_forall. intros r I. unfold delivered in I.
      apply in_flat_map in I. destruct I as [s [I D]].
      rewrite Forall_forall in Q. specialize (Q s I).
      destruct s; simpl in D; try contradiction.
      destruct D as [<-|[]]. exact Q.
    + now apply all_records_forallb.
    + intros H. pose proof (run_on_held uninit stack calls _ H) as E.
      destruct (run_settled uninit calls [] [] FastCGIStream_new
                  new_settled) as [[_ [N _]] _].
      rewrite E in N. exact N.
Qed.

(** X9.  After any calls on a new instance none of which exhausted the call
    stack, the queue is empty whenever the instance is sending: records
    wait only while it is paused or destroyed. *)
Theorem queue_empty_when_sending (uninit : nat -> byte) (stack : nat)
    (calls : list call) :
  fst (fst (run_on uninit stack calls FastCGIStream_new)) = true ->
  is_sending (snd (fst (run_on uninit stack calls FastCGIStream_new))) = true
  -> records (snd (fst (run_on uninit stack calls FastCGIStream_new))) = [].
Proof.
  intros H. pose proof (run_on_held uninit stack calls _ H) as E.
  destruct (run_settled uninit calls [] [] FastCGIStream_new new_settled)
    as [_ Q].
  rewrite E in Q. exact Q.
Qed.

Lemma queue_empty_when_sending_witness :
  fst (fst (run_on ones 2 paused_then_resumed FastCGIStream_new)) = true
  /\ is_sending (snd (fst (run_on ones 2 paused_then_resumed
                             FastCGIStream_new))) = true
  /\ records (snd (fst (run_on ones 2 paused_then_resumed
                          FastCGIStream_new))) = [].
Proof.
  split; [reflexivity|]. split; [reflexivity|].
  apply (queue_empty_when_sending ones 2 paused_then_resumed); reflexivity.
Defined.

(** X10.  The bytes decide the records, the calls do not.  When the bytes
    handed to [write] and [end] by any calls on a new instance (with pauses,
    resumes, errors, pipes, destroys between them) are the records [rs]
    followed by bytes [tail] that do not begin with a whole record, and no
    call exhausted the call stack, then the records signalled followed by
    the records queued are [rs], the pending bytes are [tail], and if the
    instance is sending in the end then all of [rs] were signalled. *)
Theorem run_frames (uninit : nat -> byte) (stack : nat) (calls : list call)
    (rs : list Buffer) (tail : Buffer) :
  forallb is_record rs = true -> holds_record tail = false ->
  written calls = concat rs ++ tail ->
  fst (fst (run_on uninit stack calls FastCGIStream_new)) = true ->
  delivered (snd (run_on uninit stack calls FastCGIStream_new))
  ++ records (snd (fst (run_on uninit stack calls FastCGIStream_new))) = rs
  /\ concat (pending_data
               (snd (fst (run_on uninit stack calls FastCGIStream_new))))
     = tail
  /\ (is_sending (snd (fst (run_on uninit stack calls FastCGIStream_new)))
      = true ->
      delivered (snd (run_on uninit stack calls FastCGIStream_new)) = rs).
Proof.
  intros R T W H. apply forallb_all_records in R.
  pose proof (run_on_held uninit stack calls _ H) as E.
  destruct (run_settled uninit calls [] [] FastCGIStream_new
              (new_settled)) as [[A [N B]] Q].
  rewrite E in A, N, B, Q. simpl in A, B, Q. rewrite W in B.
  destruct (frames_unique _ _ _ _ A R N T B) as [F P].
  split; [exact F|]. split; [exact P|].
  intros S. rewrite (Q S), app_nil_r in F. exact F.
Qed.

Lemma run_frames_witness :
  forallb is_record [record_a; record_b] = true
  /\ holds_record (firstn 3 record_c) = false
  /\ written mixed_calls = concat [record_a; record_b] ++ firstn 3 record_c
  /\ fst (fst (run_on ones 3 mixed_calls FastCGIStream_new)) = true
  /\ delivered (snd (run_on ones 3 mixed_calls FastCGIStream_new))
     ++ records (snd (fst (run_on ones 3 mixed_calls FastCGIStream_new)))
     = [record_a; record_b]
  /\ concat (pending_data
               (snd (fst (run_on ones 3 mixed_calls FastCGIStream_new))))
     = firstn 3 record_c
  /\ (is_sending (snd (fst (run_on ones 3 mixed_calls FastCGIStream_new)))
      = true ->
      delivered (snd (run_on ones 3 mixed_calls FastCGIStream_new))
      = [record_a; record_b]).
Proof.
  split; [reflexivity|]. split; [reflexivity|]. split; [reflexivity|].
  split; [reflexivity|].
  apply (run_frames ones 3 mixed_calls [record_a; record_b]
           (firstn 3 record_c)); reflexivity.
Defined.

(** ** The edges of [end] *)




Section EndEdge.
Variable uninit : nat -> byte.

End EndEdge.


Lemma merge_front_single (chunk : Buffer) : merge_front [chunk] = [chunk].
Proof. now rewrite merge_front_equation_2. Qed.

Lemma merge_front_nil : merge_front [] = [].
Proof. now rewrite merge_front_equation_1. Qed.

Section Aligned.
Variable uninit : nat -> byte.

Lemma build_record_nothing_pending (this : FastCGIStream) :
  pending_data this = [] ->
  build_record uninit this = emit_records this.
Proof.
  intros P. rewrite build_record_body, build_pass_exact. unfold pass_of.
  rewrite P. simpl. rewrite merge_front_nil.
  f_equal. destruct this; simpl in *. now subst.
Qed.

(** One chunk that holds whole records and nothing else is consumed whole:
    no chunk is left, not even an empty one. *)
Lemma build_record_whole (rs : list Buffer) (this : FastCGIStream) :
  all_records rs -> rs <> [] -> pending_data this = [concat rs] ->
  build_record uninit this
  = emit_records (set_records (records this ++ rs) (set_pending_data [] this)).
Proof.
  intros R. revert this.
  induction R as [|r rs V R IH]; intros this NE P; [now elim NE|].
  destruct (is_record_header r V) as [header [G [L L8]]].
  rewrite build_record_body, build_pass_exact. unfold pass_of.
  rewrite P. cbn [concat]. rewrite app_nil_r, merge_front_single.
  rewrite get_header_app, G by assumption.
  rewrite <- L.
  destruct (Nat.leb_spec (length r) (length (r ++ concat rs))) as [_|X];
    [|rewrite length_app in X; lia].
  rewrite firstn_app, Nat.sub_diag, firstn_O, app_nil_r, firstn_all.
  cbn [drop_bytes].
  destruct (Nat.eqb_spec (length r) 0) as [Z|_]; [lia|].
  destruct rs as [|r' rs].
  - simpl. rewrite app_nil_r.
    destruct (Nat.leb_spec (length r) (length r)) as [_|X]; [|lia].
    rewrite build_record_nothing_pending by (now destruct this).
    reflexivity.
  - inversion R as [|? ? V' R']; subst.
    pose proof (is_record_length r' V') as L'.
    destruct (Nat.leb_spec (length (r ++ concat (r' :: rs))) (length r))
      as [X|_].
    { rewrite length_app in X. simpl in X. rewrite length_app in X. lia. }
    unfold slice. rewrite skipn_app, Nat.sub_diag, skipn_all. simpl.
    rewrite IH; [|discriminate|now destruct this].
    f_equal. destruct this; simpl. now rewrite <- app_assoc.
Qed.

Lemma write_group (g : list Buffer) :
  all_records g -> g <> [] ->
  write uninit (Some (concat g : Buffer)) FastCGIStream_new
  = (Normal true, FastCGIStream_new, map on_data g).
Proof.
  intros R NE. rewrite write_unfold.
  rewrite (build_record_whole g); [|exact R|exact NE|reflexivity].
  rewrite emit_records_eq. setters. now rewrite app_nil_r.
Qed.

Lemma write_aligned (groups : list (list Buffer)) :
  aligned groups = true ->
  write_all uninit (map (@concat byte) groups) FastCGIStream_new
  = (Normal tt, FastCGIStream_new, map on_data (concat groups)).
Proof.
  induction groups as [|g groups IH]; intros A; [reflexivity|].
  simpl in A. apply andb_true_iff in A. destruct A as [Ag A].
  apply andb_true_iff in Ag. destruct Ag as [Ne Rg].
  apply forallb_all_records in Rg.
  assert (NE : g <> []) by (destruct g; discriminate).
  cbn [map]. rewrite write_all_cons, (write_group g Rg NE), (IH A).
  simpl. now rewrite map_app.
Qed.

Lemma end_nothing_pending (this : FastCGIStream) :
  pending_data this = [] -> is_sending this = true -> records this = [] ->
  end_ uninit None this
  = (Normal tt,
     set_readable false (set_writable false (set_is_ending false this)),
     [on_end]).
Proof.
  intros P S Q. rewrite end_unfold, write_unfold. simpl.
  rewrite build_record_nothing_pending by (now destruct this).
  rewrite emit_records_eq.
  destruct this as [r w e s d p q src h]. simpl in *. subst. reflexivity.
Qed.
End Aligned.

(** X12.  Chunks that each hold one or more whole records and nothing else,
    each fewer records than the call stack holds nested calls of
    [build_record], written to a new instance and followed by [end()],
    signal every record in order and then [end]; [end] returns, and the
    instance is left with nothing queued and no chunk pending, neither
    readable nor writable. *)
Theorem end_after_aligned_chunks (uninit : nat -> byte) (stack : nat)
    (groups : list (list Buffer)) :
  aligned groups = true ->
  forallb (fun g => length g <? stack) groups = true -> 0 < stack ->
  (write_all_on uninit stack (map (@concat byte) groups)
   ;; end_on uninit stack None) FastCGIStream_new
  = (Normal tt,
     set_readable false (set_writable false FastCGIStream_new),
     map on_data (concat groups) ++ [on_end]).
Proof.
  intros A B Z.
  assert (W : write_all_on uninit stack (map (@concat byte) groups)
                FastCGIStream_new
              = (Normal tt, FastCGIStream_new, map on_data (concat groups))).
  { rewrite <- (write_aligned uninit groups A). clear Z.
    induction groups as [|g groups IH]; [reflexivity|].
    simpl in A, B. apply andb_true_iff in A, B.
    destruct A as [Ag A], B as [Bg B].
    apply andb_true_iff in Ag. destruct Ag as [Ne Rg].
    apply forallb_all_records in Rg. apply Nat.ltb_lt in Bg.
    assert (NE : g <> []) by (destruct g; discriminate).
    assert (H : write_on uninit stack (Some (concat g : Buffer))
                  FastCGIStream_new
                = write uninit (Some (concat g : Buffer)) FastCGIStream_new).
    { apply write_on_held.
      destruct (write_on_count uninit stack (Some (concat g : Buffer)) g []
                  FastCGIStream_new Rg eq_refl) as [Fits _].
      { simpl. now rewrite app_nil_r. }
      destruct (Fits Bg) as [pending [_ E]]. cbv zeta in E.
      now rewrite E. }
    cbn [map write_all_on]. rewrite write_all_cons. run_M.
    rewrite H, (write_group uninit g Rg NE), (IH A B). reflexivity. }
  assert (E : end_on uninit stack None FastCGIStream_new
              = end_ uninit None FastCGIStream_new).
  { apply end_on_held. rewrite end_on_unfold, write_on_unfold.
    destruct stack as [|deeper]; [lia|]. vm_compute. reflexivity. }
  run_M. rewrite W, E.
  rewrite end_nothing_pending by reflexivity. reflexivity.
Qed.

Lemma end_after_aligned_chunks_witness :
  aligned [[record_a; record_b]; [record_c]] = true
  /\ forallb (fun g => length g <? 3) [[record_a; record_b]; [record_c]]
     = true
  /\ 0 < 3
  /\ (write_all_on ones 3
        (map (@concat byte) [[record_a; record_b]; [record_c]])
      ;; end_on ones 3 None) FastCGIStream_new
     = (Normal tt, set_readable false (set_writable false FastCGIStream_new),
        map on_data (concat [[record_a; record_b]; [record_c]]) ++ [on_end]).
Proof.
  split; [reflexivity|]. split; [reflexivity|]. split; [lia|].
  apply (end_after_aligned_chunks ones 3 [[record_a; record_b]; [record_c]]);
    [reflexivity|reflexivity|lia].
Defined.

(** X13.  [end()] does not close the instance to [write]: after [end()] on
    a new instance has signalled [end], records written in any chunks,
    fewer records than the call stack holds nested calls of [build_record],
    are still signalled, all of them and in order, after the [end]
    signal. *)
Theorem write_after_end (uninit : nat -> byte) (stack : nat)
    (rs chunks : list Buffer) :
  forallb is_record rs = true -> concat chunks = concat rs ->
  length rs < stack ->
  let ended := set_readable false (set_writable false FastCGIStream_new) in
  end_on uninit stack None FastCGIStream_new = (Normal tt, ended, [on_end])
  /\ exists pending,
       concat pending = []
       /\ write_all_on uninit stack chunks ended
          = (Normal tt, set_pending_data pending ended, map on_data rs).
Proof.
  intros R C L ended. apply forallb_all_records in R. split.
  - rewrite end_on_held.
    + now rewrite end_nothing_pending.
    + rewrite end_on_unfold, write_on_unfold.
      destruct stack as [|deeper]; [lia|]. vm_compute. reflexivity.
  - rewrite (write_all_on_enough uninit stack chunks rs [] ended R eq_refl);
      [|simpl; rewrite C; now rewrite app_nil_r|exact L].
    destruct (write_all_eq uninit chunks ended)
      as [fs [pending [F [C' [N W]]]]]; try reflexivity.
    simpl in C', W. rewrite C in C'.
    destruct (whole_records_found rs fs pending R F N C') as [-> E].
    exists pending. split; [exact E|exact W].
Qed.

Lemma write_after_end_witness :
  forallb is_record [record_a; record_b] = true
  /\ concat (record_a_split ++ [record_b]) = concat [record_a; record_b]
  /\ length [record_a; record_b] < 3
  /\ end_on ones 3 None FastCGIStream_new
     = (Normal tt, set_readable false (set_writable false FastCGIStream_new),
        [on_end])
  /\ exists pending,
       concat pending = []
       /\ write_all_on ones 3 (record_a_split ++ [record_b])
            (set_readable false (set_writable false FastCGIStream_new))
          = (Normal tt,
             set_pending_data pending
               (set_readable false (set_writable false FastCGIStream_new)),
             map on_data [record_a; record_b]).
Proof.
  split; [reflexivity|]. split; [reflexivity|]. split; [simpl; lia|].
  apply (write_after_end ones 3 [record_a; record_b]
           (record_a_split ++ [record_b])); [reflexivity|reflexivity|].
  simpl. lia.
Defined.

(** X14.  [end] called while the instance is sending signals [end] whenever
    the call stack holds, also on an instance that has signalled [end]
    before and whether or not [end] then throws its [ReferenceError].  With
    [fs] the whole records that the pending bytes and the data begin with:
    if they are fewer than the stack holds nested calls of [build_record],
    the records queued and then [fs] are signalled, [end] is the last
    signal, the queue is left empty and [readable], [writable] and
    [is_ending] are cleared; if not, [end] throws a [RangeError] and
    signals nothing, [is_ending] stays set, [writable] is cleared and the
    records built stay in the queue. *)
Theorem end_signals_whenever_sending (uninit : nat -> byte) (stack : nat)
    (data : option Buffer) (this : FastCGIStream) :
  is_sending this = true ->
  exists fs pending r this',
    forallb is_record fs = true
    /\ concat (pending_data this) ++ bytes_of data
       = concat fs ++ concat pending
    /\ ((length fs < stack
         /\ holds_record (concat pending) = false
         /\ end_on uninit stack data this
            = (r, this', map on_data (records this ++ fs) ++ [on_end])
         /\ is_overflow r = false
         /\ readable this' = false /\ writable this' = false
         /\ is_ending this' = false /\ records this' = [])
        \/ (length fs = stack
            /\ end_on uninit stack data this = (Throw RangeError, this', [])
            /\ writable this' = false /\ is_ending this' = true
            /\ records this' = records this ++ fs)).
Proof.
  intros S.
  destruct (end_on_eq uninit stack data this) as [fs [pending [F [C B]]]].
  cbv zeta in B. apply all_records_forallb in F.
  exists fs, pending.
  destruct this as [r w e s d p q src h]. simpl in S. subst s.
  destruct B as [[L [N B]]|[L B]]; rewrite B; setters.
  - eexists _, _. split; [exact F|]. split; [exact C|]. left.
    split; [exact L|]. split; [exact N|].
    split; [reflexivity|]. split; [now destruct pending|]. auto.
  - eexists (Throw RangeError), _. split; [exact F|]. split; [exact C|].
    right. split; [exact L|]. split; [reflexivity|]. auto.
Qed.

Lemma end_signals_whenever_sending_witness :
  is_sending (set_readable false (set_writable false FastCGIStream_new))
  = true
  /\ exists fs pending r this',
       forallb is_record fs = true
       /\ concat
            (pending_data
               (set_readable false (set_writable false FastCGIStream_new)))
          ++ bytes_of (Some (record_a ++ record_b))
          = concat fs ++ concat pending
       /\ ((length fs < 2
            /\ holds_record (concat pending) = false
            /\ end_on ones 2 (Some (record_a ++ record_b))
                 (set_readable false (set_writable false FastCGIStream_new))
               = (r, this',
                  map on_data
                    (records
                       (set_readable false
                          (set_writable false FastCGIStream_new)) ++ fs)
                  ++ [on_end])
            /\ is_overflow r = false
            /\ readable this' = false /\ writable this' = false
            /\ is_ending this' = false /\ records this' = [])
           \/ (length fs = 2
               /\ end_on ones 2 (Some (record_a ++ record_b))
                    (set_readable false
                       (set_writable false FastCGIStream_new))
                  = (Throw RangeError, this', [])
               /\ writable this' = false /\ is_ending this' = true
               /\ records this'
                  = records
                      (set_readable false
                         (set_writable false FastCGIStream_new)) ++ fs)).
Proof.
  split; [reflexivity|].
  apply (end_signals_whenever_sending ones 2 (Some (record_a ++ record_b))
           (set_readable false (set_writable false FastCGIStream_new))).
  reflexivity.
Defined.

(** ** Flags, errors and unsupported calls *)

Lemma flag_steps (c : call) (fs pending : list Buffer)
    (this : FastCGIStream) :
  (readable this = false -> readable (fst (effect c fs pending this)) = false)
  /\ (writable this = false ->
      writable (fst (effect c fs pending this)) = false)
  /\ (is_dead this = true -> is_dead (fst (effect c fs pending this)) = true).
Proof.
  effect_cases this c; repeat split; intros; subst; auto.
Qed.

(** X15.  No call sets a terminal flag back: over any calls on any
    instance, [readable] once cleared stays cleared, [writable] once cleared
    stays cleared, and [is_dead] once set stays set. *)
Theorem terminal_flags_stay (uninit : nat -> byte) (calls : list call)
    (this : FastCGIStream) :
  (readable this = false -> readable (fst (run uninit calls this)) = false)
  /\ (writable this = false ->
      writable (fst (run uninit calls this)) = false)
  /\ (is_dead this = true -> is_dead (fst (run uninit calls this)) = true).
Proof.
  assert (T : Forall (fun _ : call => True) calls)
    by (apply Forall_forall; auto).
  split; [|split]; intros H.
  - apply (run_invariant uninit (fun t => readable t = false)
             (fun _ => True) (fun _ => True)); auto.
    intros c fs pending t _ R. split; [now apply flag_steps|].
    apply Forall_forall. auto.
  - apply (run_invariant uninit (fun t => writable t = false)
             (fun _ => True) (fun _ => True)); auto.
    intros c fs pending t _ R. split; [now apply flag_steps|].
    apply Forall_forall. auto.
  - apply (run_invariant uninit (fun t => is_dead t = true)
             (fun _ => True) (fun _ => True)); auto.
    intros c fs pending t _ R. split; [now apply flag_steps|].
    apply Forall_forall. auto.
Qed.

Lemma no_error_data (rs : list Buffer) :
  Forall (fun s => is_error s = false) (map on_data rs).
Proof. apply Forall_forall. intros s I. apply in_map_iff in I.
  destruct I as [r [<- _]]. reflexivity. Qed.

Lemma traffic_step (c : call) (fs pending : list Buffer)
    (this : FastCGIStream) :
  is_traffic c = true ->
  Forall (fun s => is_error s = false) (snd (effect c fs pending this)).
Proof.
  intros T.
  effect_cases this c; try discriminate;
    repeat first [ apply Forall_app; split
                 | apply no_error_data
                 | apply Forall_cons; [reflexivity|]
                 | apply Forall_nil ].
Qed.

(** X16.  No input is reported as an error: calls of [write], [end],
    [pause], [resume], [destroy], [destroySoon] and [setEncoding], with any
    bytes and in any order, on any instance, signal no [error].  Only
    [error] itself and a second ['pipe'] event do. *)
Theorem traffic_never_errors (uninit : nat -> byte) (calls : list call)
    (this : FastCGIStream) :
  forallb is_traffic calls = true ->
  forallb (fun s => negb (is_error s)) (snd (run uninit calls this)) = true.
Proof.
  intros T.
  assert (A : Forall (fun c => is_traffic c = true) calls).
  { apply Forall_forall. intros c I. rewrite forallb_forall in T. auto. }
  destruct (run_invariant uninit (fun _ => True)
              (fun s => is_error s = false)
              (fun c => is_traffic c = true)) with (calls := calls)
    (this := this) as [_ Q]; auto.
  - intros c fs pending t Tc _. split; [exact I|]. now apply traffic_step.
  - apply forallb_forall. intros s I. rewrite Forall_forall in Q.
    now rewrite (Q s I).
Qed.

Lemma traffic_never_errors_witness :
  forallb is_traffic traffic = true
  /\ forallb (fun s => negb (is_error s)) (snd (run ones traffic piped))
     = true.
Proof.
  split; [reflexivity|].
  apply (traffic_never_errors ones traffic piped). reflexivity.
Defined.

(** X17.  [setEncoding] and [destroySoon] throw before they touch the
    instance: taking these calls out of any sequence of calls changes
    neither the instance in the end nor what is signalled. *)
Theorem unsupported_calls_change_nothing (uninit : nat -> byte)
    (calls : list call) (this : FastCGIStream) :
  run uninit (filter (fun c => negb (is_unsupported c)) calls) this
  = run uninit calls this.
Proof.
  revert this. induction calls as [|c rest IH]; intros this; [reflexivity|].
  destruct c; cbn [filter is_unsupported negb];
    try (cbn [run]; destruct (perform uninit _ this) as [[r this1] out1];
         now rewrite IH).
  - rewrite IH. cbn [run perform]. unfold destroySoon, throw.
    now destruct (run uninit rest this).
  - rewrite IH. cbn [run perform]. unfold setEncoding, throw.
    now destruct (run uninit rest this).
Qed.

(** ** The producer *)

(** As [effect_cases], keeping what the tests were. *)
Ltac effect_cases_eq this c :=
  destruct this as [r w e s d p q [src|] h];
  destruct c as [data|data| | | | | |er|src'];
  cbv [effect fst snd to_source] in *; setters;
  repeat match goal with
         | |- context [if ?b then _ else _] => destruct b eqn:?; simpl
         | |- context [match ?b with first_pipe => _ | later_pipe => _ end] =>
             destruct b; simpl
         end.

Lemma bound_signals_step (bound : Producer) (c : call)
    (fs pending : list Buffer) (this : FastCGIStream) :
  source this = Some bound /\ pipe_handler this = later_pipe ->
  (source (fst (effect c fs pending this)) = Some bound
   /\ pipe_handler (fst (effect c fs pending this)) = later_pipe)
  /\ Forall (fun s => (producer_of s = None \/ producer_of s = Some bound)
                      /\ has_method s = true)
       (snd (effect c fs pending this)).
Proof.
  intros [B H]. split; [now apply bound_step|].
  apply Forall_forall. intros sg I. revert I.
  effect_cases_eq this c; subst; try discriminate; injection B as ->;
    rewrite ?in_app_iff; simpl; rewrite ?in_map_iff;
    intros I;
    repeat match goal with
           | I : _ \/ _ |- _ => destruct I as [I|I]
           | I : False |- _ => elim I
           | I : exists _, _ |- _ => destruct I as [? [<- _]]
           end; subst; simpl; auto.
Qed.

Lemma unbound_step (c : call) (fs pending : list Buffer)
    (this : FastCGIStream) :
  (forall src, c <> call_pipe src) ->
  source this = None /\ pipe_handler this = first_pipe ->
  (source (fst (effect c fs pending this)) = None
   /\ pipe_handler (fst (effect c fs pending this)) = first_pipe)
  /\ Forall (fun s => producer_of s = None)
       (snd (effect c fs pending this)).
Proof.
  intros NP [B H]. split.
  - effect_cases this c; subst; try discriminate; auto.
    all: now elim (NP src').
  - apply Forall_forall. intros sg I. revert I.
    effect_cases this c; subst; try discriminate;
      try (now elim (NP src'));
      rewrite ?in_app_iff; simpl; rewrite ?in_map_iff;
      intros I;
      repeat match goal with
             | I : _ \/ _ |- _ => destruct I as [I|I]
             | I : False |- _ => elim I
             | I : exists _, _ |- _ => destruct I as [? [<- _]]
             end; subst; simpl; auto.
Qed.

Section Upstream.
Variable uninit : nat -> byte.

Lemma run_bound_signals (bound : Producer) (calls : list call)
    (this : FastCGIStream) :
  source this = Some bound -> pipe_handler this = later_pipe ->
  source (fst (run uninit calls this)) = Some bound
  /\ Forall (fun s => (producer_of s = None \/ producer_of s = Some bound)
                      /\ has_method s = true)
       (snd (run uninit calls this)).
Proof.
  intros B H.
  destruct (run_invariant uninit
              (fun t => source t = Some bound /\ pipe_handler t = later_pipe)
              (fun s => (producer_of s = None \/ producer_of s = Some bound)
                        /\ has_method s = true)
              (fun _ => True)) with (calls := calls) (this := this)
    as [[S _] Q]; auto.
  - intros c fs pending t _ I. now apply bound_signals_step.
  - apply Forall_forall. auto.
Qed.

Lemma run_upstream (calls : list call) (this : FastCGIStream) :
  source this = None -> pipe_handler this = first_pipe ->
  source (fst (run uninit calls this)) = first_piped calls
  /\ Forall (fun s => (producer_of s = None
                       \/ producer_of s = first_piped calls)
                      /\ has_method s = true)
       (snd (run uninit calls this)).
Proof.
  revert this. induction calls as [|c rest IH]; intros this B H.
  - split; [exact B|constructor].
  - destruct (perform_effect uninit c this) as [fs [pending [r E]]].
    cbn [run]. rewrite E.
    assert (P : (exists src, c = call_pipe src)
                \/ forall src, c <> call_pipe src).
    { destruct c; try (right; discriminate). left. eauto. }
    destruct P as [[src ->]|NP].
    + unfold first_piped. cbn [flat_map app head].
      destruct (run_bound_signals src rest
                  (fst (effect (call_pipe src) fs pending this)))
        as [S Q].
      { cbv [effect fst]. rewrite H. now destruct this. }
      { cbv [effect fst]. rewrite H. now destruct this. }
      destruct (run uninit rest _) as [this2 out2]. cbn [fst snd] in *.
      split; [exact S|]. apply Forall_app. split; [|exact Q].
      cbv [effect snd]. rewrite H. constructor.
    + destruct (unbound_step c fs pending this NP (conj B H))
        as [[B1 H1] Q1].
      destruct (IH _ B1 H1) as [S Q].
      assert (F : first_piped (c :: rest) = first_piped rest).
      { unfold first_piped. cbn [flat_map].
        destruct c; try reflexivity. now elim (NP src). }
      rewrite F.
      destruct (run uninit rest _) as [this2 out2]. cbn [fst snd] in *.
      split; [exact S|]. apply Forall_app. split; [|exact Q].
      eapply Forall_impl; [|exact Q1]. intros sg N. simpl in N.
      split; [now left|]. now destruct sg.
Qed.
End Upstream.

(** X18.  Only the first producer piped in is ever called.  After any calls
    on a new instance, [source] is the producer of the first ['pipe'] event
    ([null] if there was none), every call of a [pause], [resume] or
    [destroy] of a producer went to that producer, and only for a method
    that it has. *)
Theorem only_first_producer_called (uninit : nat -> byte)
    (calls : list call) :
  source (fst (run uninit calls FastCGIStream_new)) = first_piped calls
  /\ Forall (fun s => (producer_of s = None
                       \/ producer_of s = first_piped calls)
                      /\ has_method s = true)
       (snd (run uninit calls FastCGIStream_new)).
Proof. now apply run_upstream. Qed.

(** ** [normalize_data] *)

Lemma js_string_eqb_eq (a b : js_string) :
  js_string_eqb a b = true <-> a = b.
Proof.
  unfold js_string_eqb. destruct (list_eq_dec Ascii.ascii_dec a b).
  - tauto.
  - split; [discriminate|contradiction].
Qed.

Lemma js_string_eqb_neq (a b : js_string) :
  js_string_eqb a b = false <-> a <> b.
Proof.
  unfold js_string_eqb. destruct (list_eq_dec Ascii.ascii_dec a b).
  - split; [discriminate|contradiction].
  - tauto.
Qed.

(** The four strings that [normalize_data] cuts, in terms of its data [d]
    and of the string expected [e]. *)
Lemma substr_cuts (d e : js_string) :
  let prefix := substr d 0 (length e) in
  let expected_part := substr e 0 (length prefix) in
  prefix = firstn (length e) d
  /\ expected_part = firstn (length d) e
  /\ substr_from d (length prefix) = skipn (length e) d
  /\ substr_from e (length expected_part) = skipn (length d) e.
Proof.
  unfold substr, substr_from. cbn [skipn].
  rewrite !length_firstn.
  destruct (Nat.le_ge_cases (length e) (length d)) as [L|L].
  - rewrite (Nat.min_l _ _ L), Nat.min_id.
    rewrite !(firstn_all2 e) by lia. rewrite !(skipn_all2 e) by lia. auto.
  - rewrite (Nat.min_r _ _ L), (Nat.min_l (length d) (length e)) by lia.
    rewrite !(firstn_all2 d) by lia. rewrite !(skipn_all2 d) by lia. auto.
Qed.

Section NormalizeFacts.
Variable inspect : js_data -> String.string.
Variable toString : Buffer -> option js_string -> js_string + exn.

Lemma normalize_data_as_string (data : js_data) (encoding : option js_string)
    (d : js_string) (fields : FeedFields) :
  as_string toString data encoding = Some d ->
  normalize_data inspect toString data encoding fields
  = normalize_data inspect toString (data_string d) None fields.
Proof.
  intros A. unfold as_string in A. unfold normalize_data.
  destruct data as [b| |s|v].
  - destruct (toString b encoding); [|discriminate]. now injection A as ->.
  - destruct encoding; [discriminate|]. now injection A as <-.
  - destruct encoding; now injection A as ->.
  - destruct encoding; discriminate.
Qed.

Lemma normalize_data_agree (d e : js_string) (fields : FeedFields)
    (this : FastCGIStream) :
  feed_set fields = true -> expect fields = expect_string e ->
  firstn (length e) d = firstn (length d) e ->
  normalize_data inspect toString (data_string d) None fields this
  = (Normal (set_expect (expect_string (skipn (length d) e)) fields,
             inl (skipn (length e) d)), this, []).
Proof.
  intros F E A. unfold normalize_data. run_M.
  unfold feed_set in F. apply orb_true_iff in F.
  assert (G : negb (feed_is continuous fields)
              && negb (feed_is longpoll fields) = false).
  { destruct F as [-> | ->]; [reflexivity|apply andb_false_r]. }
  rewrite G, E.
  destruct (substr_cuts d e) as [P [X [D R]]]. cbv zeta in P, X, D, R.
  rewrite R, D, X, P.
  apply js_string_eqb_eq in A. rewrite A. reflexivity.
Qed.

Lemma normalize_data_differ (d e : js_string) (fields : FeedFields)
    (this : FastCGIStream) :
  feed_set fields = true -> expect fields = expect_string e ->
  firstn (length e) d <> firstn (length d) e ->
  exists message,
    normalize_data inspect toString (data_string d) None fields this
    = (Normal (fields, inr false),
       set_writable false (set_readable false this),
       [on_error (Error message)]).
Proof.
  intros F E A. unfold normalize_data. run_M.
  unfold feed_set in F. apply orb_true_iff in F.
  assert (G : negb (feed_is continuous fields)
              && negb (feed_is longpoll fields) = false).
  { destruct F as [-> | ->]; [reflexivity|apply andb_false_r]. }
  rewrite G, E.
  destruct (substr_cuts d e) as [P [X [D R]]]. cbv zeta in P, X, D, R.
  rewrite R, D, X, P.
  apply js_string_eqb_neq in A. rewrite A. simpl. eexists.
  destruct fields as [f x]. simpl in E. subst x. reflexivity.
Qed.

(** One of two strings begins with the other; then so it is of what is left
    of them when the shorter is cut off both. *)
Lemma agree_app (d y e : js_string) :
  firstn (length e) (d ++ y) = firstn (length (d ++ y)) e ->
  firstn (length e) d = firstn (length d) e
  /\ firstn (length (skipn (length d) e)) y
     = firstn (length y) (skipn (length d) e).
Proof.
  rewrite length_app, length_skipn, firstn_app. intros H.
  destruct (Nat.le_gt_cases (length e) (length d)) as [L|L].
  - replace (length e - length d) with 0 in * by lia.
    rewrite firstn_O, app_nil_r in *.
    rewrite (firstn_all2 e) in H by lia.
    rewrite (firstn_all2 e) by lia. split; [exact H|].
    rewrite (skipn_all2 e) by lia. now rewrite firstn_nil.
  - rewrite (firstn_all2 d) in * by lia.
    assert (D : d = firstn (length d) e).
    { apply (f_equal (firstn (length d))) in H.
      rewrite firstn_app, Nat.sub_diag, firstn_O, app_nil_r, firstn_all in H.
      rewrite firstn_firstn, Nat.min_l in H by lia. exact H. }
    split; [exact D|].
    apply (f_equal (skipn (length d))) in H.
    rewrite skipn_app, Nat.sub_diag, skipn_all in H. cbn [skipn app] in H.
    rewrite H, skipn_firstn_comm. f_equal. lia.
Qed.

Lemma normalize_all_agree (chunks : list js_string) (e : js_string)
    (fields : FeedFields) (this : FastCGIStream) :
  feed_set fields = true -> expect fields = expect_string e ->
  firstn (length e) (concat chunks) = firstn (length (concat chunks)) e ->
  exists outs,
    normalize_all inspect toString chunks fields this
    = (Normal (set_expect (expect_string (skipn (length (concat chunks)) e))
                 fields, outs), this, [])
    /\ concat outs = skipn (length e) (concat chunks)
    /\ length outs = length chunks.
Proof.
  revert e fields. induction chunks as [|d ds IH]; intros e fields F E A.
  - exists []. simpl. split; [|split; [now rewrite skipn_nil|reflexivity]].
    destruct fields as [f x]. simpl in E. now subst x.
  - cbn [concat] in *. apply agree_app in A. destruct A as [A1 A2].
    destruct (IH (skipn (length d) e)
                (set_expect (expect_string (skipn (length d) e)) fields))
      as [outs [N [C L]]]; [exact F|reflexivity|exact A2|].
    exists (skipn (length e) d :: outs).
    cbn [normalize_all]. run_M.
    rewrite (normalize_data_agree d e fields this F E A1), N.
    cbn [fst snd app].
    split; [|split].
    + rewrite length_app, skipn_skipn, (Nat.add_comm (length d)).
      reflexivity.
    + cbn [concat]. rewrite C, length_skipn, skipn_app. reflexivity.
    + simpl. now rewrite L.
Qed.

End NormalizeFacts.

(** X19.  Without its two fields [normalize_data] never returns data.
    When [feed] is not ['continuous'] or ['longpoll'], or [expect] is
    [undefined] (the constructor leaves both [undefined]), then for every
    [data] and [encoding] the call either throws and leaves the instance as
    it was, or reports one [error], clears [readable] and [writable],
    returns [false] and leaves the fields as they were. *)
Theorem normalize_data_needs_fields
    (inspect : js_data -> String.string)
    (toString : Buffer -> option js_string -> js_string + exn)
    (data : js_data) (encoding : option js_string) (fields : FeedFields)
    (this : FastCGIStream) :
  fields_set fields = false ->
  (exists e,
     normalize_data inspect toString data encoding fields this
     = (Throw e, this, []))
  \/ (exists message,
        normalize_data inspect toString data encoding fields this
        = (Normal (fields, inr false),
           set_writable false (set_readable false this),
           [on_error (Error message)])).
Proof.
  intros U.
  assert (S : forall d,
            (exists e,
               normalize_data inspect toString (data_string d) None fields this
               = (Throw e, this, []))
            \/ (exists message,
                  normalize_data inspect toString (data_string d) None fields
                    this
                  = (Normal (fields, inr false),
                     set_writable false (set_readable false this),
                     [on_error (Error message)]))).
  { intros d. unfold normalize_data. run_M.
    unfold fields_set, feed_set in U.
    destruct (feed_is continuous fields), (feed_is longpoll fields);
      simpl in *; try (right; eexists; reflexivity);
      destruct (expect fields); try discriminate; left; eexists; reflexivity. }
  destruct (as_string toString data encoding) as [d|] eqn:A.
  - rewrite (normalize_data_as_string inspect toString data encoding d fields A).
    apply S.
  - unfold as_string in A. unfold normalize_data. run_M.
    destruct data as [b| |s|v].
    + destruct (toString b encoding); [discriminate|]. left. eexists.
      reflexivity.
    + destruct encoding; [|discriminate]. right. eexists. reflexivity.
    + destruct encoding; discriminate.
    + destruct encoding; right; eexists; reflexivity.
Qed.

Lemma normalize_data_needs_fields_witness :
  fields_set FeedFields_new = false
  /\ ((exists e,
         normalize_data sample_inspect sample_toString (data_Buffer record_a)
           None FeedFields_new FastCGIStream_new
         = (Throw e, FastCGIStream_new, []))
      \/ (exists message,
            normalize_data sample_inspect sample_toString
              (data_Buffer record_a) None FeedFields_new FastCGIStream_new
            = (Normal (FeedFields_new, inr false),
               set_writable false (set_readable false FastCGIStream_new),
               [on_error (Error message)]))).
Proof.
  split; [reflexivity|].
  apply (normalize_data_needs_fields sample_inspect sample_toString
           (data_Buffer record_a) None FeedFields_new FastCGIStream_new).
  reflexivity.
Defined.

(** X20.  One call of [normalize_data] with [feed] set and a string [e]
    expected, on data that it reads as the string [d] (a string, a Buffer
    that [toString] decodes, or nothing at all).  If one of [d] and [e]
    begins with the other, the call returns [d] without its first
    [e.length] code units, leaves in [expect] what of [e] the data did not
    cover, and signals nothing.  If not, it reports one [error], clears
    [readable] and [writable], returns [false] and leaves [expect] as it
    was. *)
Theorem normalize_data_cuts_prefix
    (inspect : js_data -> String.string)
    (toString : Buffer -> option js_string -> js_string + exn)
    (data : js_data) (encoding : option js_string) (d e : js_string)
    (fields : FeedFields) (this : FastCGIStream) :
  feed_set fields = true -> expect fields = expect_string e ->
  as_string toString data encoding = Some d ->
  (firstn (length e) d = firstn (length d) e ->
   normalize_data inspect toString data encoding fields this
   = (Normal (set_expect (expect_string (skipn (length d) e)) fields,
              inl (skipn (length e) d)), this, []))
  /\ (firstn (length e) d <> firstn (length d) e ->
      exists message,
        normalize_data inspect toString data encoding fields this
        = (Normal (fields, inr false),
           set_writable false (set_readable false this),
           [on_error (Error message)])).
Proof.
  intros F E A.
  rewrite (normalize_data_as_string inspect toString data encoding d fields A).
  split; intros H.
  - now apply normalize_data_agree.
  - now apply normalize_data_differ with (e := e).
Qed.

Lemma normalize_data_cuts_prefix_witness :
  feed_set fed = true
  /\ expect fed = expect_string (String.list_ascii_of_string "ab")
  /\ as_string sample_toString
       (data_Buffer ["a"; "b"; "c"]%byte) None
     = Some (String.list_ascii_of_string "abc")
  /\ normalize_data sample_inspect sample_toString
       (data_Buffer ["a"; "b"; "c"]%byte) None fed FastCGIStream_new
     = (Normal (set_expect (expect_string []) fed,
                inl (String.list_ascii_of_string "c")),
        FastCGIStream_new, []).
Proof.
  split; [reflexivity|]. split; [reflexivity|]. split; [reflexivity|].
  apply (normalize_data_cuts_prefix sample_inspect sample_toString
           (data_Buffer ["a"; "b"; "c"]%byte) None
           (String.list_ascii_of_string "abc")
           (String.list_ascii_of_string "ab") fed FastCGIStream_new);
    reflexivity.
Defined.

(** X21.  The expected prefix is taken off the stream of strings, however
    the stream is cut into strings.  With [feed] set and [e] expected, when
    the strings handed to [normalize_data] one after the other begin with
    [e] and go on with [body] ([rest] is empty), or stop inside [e] with
    [rest] still to come ([body] is empty), every call returns a string, the
    strings returned make up [body], [rest] is left in [expect], and
    nothing is signalled. *)
Theorem normalize_all_strips_prefix
    (inspect : js_data -> String.string)
    (toString : Buffer -> option js_string -> js_string + exn)
    (chunks : list js_string) (e body rest : js_string)
    (fields : FeedFields) (this : FastCGIStream) :
  feed_set fields = true -> expect fields = expect_string e ->
  concat chunks ++ rest = e ++ body -> rest = [] \/ body = [] ->
  exists outs,
    normalize_all inspect toString chunks fields this
    = (Normal (set_expect (expect_string rest) fields, outs), this, [])
    /\ concat outs = body
    /\ length outs = length chunks.
Proof.
  intros F E C Z.
  assert (K : firstn (length e) (concat chunks)
              = firstn (length (concat chunks)) e
              /\ skipn (length (concat chunks)) e = rest
              /\ skipn (length e) (concat chunks) = body).
  { destruct Z as [-> | ->]; rewrite app_nil_r in C.
    - rewrite C, length_app.
      rewrite firstn_app, Nat.sub_diag, firstn_O, app_nil_r, firstn_all.
      rewrite (firstn_all2 e) by lia. rewrite (skipn_all2 e) by lia.
      rewrite skipn_app, Nat.sub_diag, skipn_all. auto.
    - rewrite <- C, length_app.
      rewrite firstn_app, Nat.sub_diag, firstn_O, app_nil_r, firstn_all.
      rewrite (firstn_all2 (concat chunks)) by lia.
      rewrite (skipn_all2 (concat chunks)) by lia.
      rewrite skipn_app, Nat.sub_diag, skipn_all. auto. }
  destruct K as [A [R B]].
  destruct (normalize_all_agree inspect toString chunks e fields this F E A)
    as [outs [N [C' L]]].
  exists outs. rewrite N, R, C', B. auto.
Qed.

Lemma normalize_all_strips_prefix_witness :
  feed_set fed = true
  /\ expect fed = expect_string (String.list_ascii_of_string "ab")
  /\ concat prefixed_chunks ++ []
     = String.list_ascii_of_string "ab" ++ String.list_ascii_of_string "cd"
  /\ exists outs,
       normalize_all sample_inspect sample_toString
         prefixed_chunks fed
         FastCGIStream_new
       = (Normal (set_expect (expect_string []) fed, outs),
          FastCGIStream_new, [])
       /\ concat outs = String.list_ascii_of_string "cd"
       /\ length outs = 3.
Proof.
  split; [reflexivity|]. split; [reflexivity|]. split; [reflexivity|].
  apply (normalize_all_strips_prefix sample_inspect sample_toString
           prefixed_chunks
           (String.list_ascii_of_string "ab")
           (String.list_ascii_of_string "cd") [] fed FastCGIStream_new);
    [reflexivity|reflexivity|reflexivity|now left].
Defined.
